(** * CallbacksHandler: one remote watch per resource, many observers

    A verification development for
    [client/src/firebase/firestore/handler/callbacks-handler.ts].

    The class keeps two private registries ([callbacks] for single
    documents, [collectionCallbacks] for whole collections).  Each maps a
    resource key to an entry object that owns the [unsubscribe] function of
    the one live watch opened for that key and a JavaScript [Map] from
    callback id to callback.  The entry objects are shared: the registry,
    the snapshot handler given to [onSnapshot] and a running [forEach] all
    refer to the same object, so entries live in an explicit heap and are
    addressed by location.

    Two smaller parts of the application come first: the duration
    formatting helpers and the security rules of the store. *)

From Stdlib Require Import Ascii.
From stdpp Require Import gmap strings list fin_maps pretty.

(** * Durations

    The helpers that turn a number of milliseconds into clock fields and
    display strings ([decomposeMilliseconds], [formatDuration],
    [formatAbbreviatedDuration], [formatTime]).  A duration is an integer
    number of milliseconds, as differences of [Date] values are; on
    integers below 2^53 the floating-point division followed by
    [Math.floor] is the floor division of [Z], and [%] is [Z.rem], whose
    sign follows the dividend. *)

Module Duration.

Record Parts := mkParts {
  hours : Z;
  minutes : Z;
  seconds : Z;
  milliseconds : Z;
}.

Definition decomposeMilliseconds (ms : Z) : Parts :=
  {| hours := (ms / 3600000)%Z;
     minutes := (Z.rem ms 3600000 / 60000)%Z;
     seconds := (Z.rem ms 60000 / 1000)%Z;
     milliseconds := Z.rem ms 1000 |}.

(** [String(n)] and [`${n}`] of an integer. *)
Definition show (n : Z) : string := pretty n.

Fixpoint fill (n : nat) (c : Ascii.ascii) (s : string) : string :=
  match n with
  | 0 => s
  | S n' => String c (fill n' c s)
  end.

(** [s.padStart(targetLength, c)] for a one-character filler. *)
Definition padStart (targetLength : nat) (c : Ascii.ascii) (s : string) : string :=
  fill (targetLength - String.length s) c s.

(** [String(n).padStart(2, '0')] *)
Definition pad2 (n : Z) : string := padStart 2 "0"%char (show n).

Record UnitLabels := mkUnitLabels {
  hoursLabel : option string;
  minutesLabel : option string;
  secondsLabel : option string;
}.

(** [DurationFormatOptions]: every field may be left out. *)
Record DurationFormatOptions := mkOptions {
  showHours : option bool;
  padHours : option bool;
  showMinutes : option bool;
  padMinutes : option bool;
  showSeconds : option bool;
  padSeconds : option bool;
  fractionalDigits : option Z;
  separator : option string;
  unitLabels : option UnitLabels;
  hideZeroHours : option bool;
}.

Definition no_options : DurationFormatOptions :=
  mkOptions None None None None None None None None None None.

Record AbbreviatedOptions := mkAbbreviated {
  minuteLabel : option string;
  hourLabel : option string;
}.

Section Format.
(** The two uses of [toFixed], which round a floating-point number, and
    the constant of [constants/datetime-constants], are parameters:
    [toFixed_fraction m d] is [(m / 1000).toFixed(d).slice(2)] and
    [toFixed1_hours t] is [(t / 60).toFixed(1)]. *)
Variable toFixed_fraction : Z -> Z -> string.
Variable toFixed1_hours : Z -> string.
Variable MINUTES_IN_MILLISECOND : Z.

Definition formatDuration (ms : Z) (options : option DurationFormatOptions) : string :=
  let o := default no_options options in
  let showHours := default true (showHours o) in
  let padHours := default true (padHours o) in
  let showMinutes := default true (showMinutes o) in
  let padMinutes := default true (padMinutes o) in
  let showSeconds := default true (showSeconds o) in
  let padSeconds := default true (padSeconds o) in
  let fractionalDigits := default 0%Z (fractionalDigits o) in
  let separator := default " : " (separator o) in
  let unitLabels := unitLabels o in
  let hideZeroHours :=
    default (match unitLabels with Some _ => false | None => true end) (hideZeroHours o) in
  let p := decomposeMilliseconds ms in
  let hoursStr := if padHours then pad2 (hours p) else show (hours p) in
  let minutesStr := if padMinutes then pad2 (minutes p) else show (minutes p) in
  let secondsStr := if padSeconds then pad2 (seconds p) else show (seconds p) in
  let secondsStr :=
    if (0 <? fractionalDigits)%Z
    then secondsStr +:+ "." +:+ toFixed_fraction (milliseconds p) fractionalDigits
    else secondsStr in
  match unitLabels with
  | Some ul =>
      String.concat " "
        ((if showHours && ((0 <? hours p)%Z || negb hideZeroHours)
          then [show (hours p) +:+ default "" (hoursLabel ul)] else []) ++
         (if showMinutes then [show (minutes p) +:+ default "" (minutesLabel ul)] else []) ++
         (if showSeconds then [secondsStr +:+ default "" (secondsLabel ul)] else []))
  | None =>
      String.concat separator
        ((if showHours && ((0 <? hours p)%Z || negb hideZeroHours) then [hoursStr] else []) ++
         (if showMinutes then [minutesStr] else []) ++
         (if showSeconds then [secondsStr] else []))
  end.

Definition formatAbbreviatedDuration (ms : Z) (options : option AbbreviatedOptions) : string :=
  let minuteLabel := default "min" (options ≫= minuteLabel) in
  let hourLabel := default "h" (options ≫= hourLabel) in
  let totalMinutes := (ms / MINUTES_IN_MILLISECOND)%Z in
  if (60 <=? totalMinutes)%Z
  then toFixed1_hours totalMinutes +:+ hourLabel
  else show totalMinutes +:+ minuteLabel.
End Format.

(** [unit ? `${value}${unit}` : value.toString()]: the empty label counts
    as none. *)
Definition formatUnit (value : Z) (unit : option string) : string :=
  match unit with
  | Some (String c u) => show value +:+ String c u
  | _ => show value
  end.

Definition formatTime (ms : Z) (separator : option string)
    (unitLabels : option UnitLabels) : string :=
  let separator := default ":" separator in
  let totalSeconds := (ms / 1000)%Z in
  let hours := (totalSeconds / 3600)%Z in
  let minutes := (Z.rem totalSeconds 3600 / 60)%Z in
  let seconds := Z.rem totalSeconds 60 in
  match unitLabels with
  | Some ul =>
      String.concat " "
        ((if (0 <? hours)%Z then [formatUnit hours (hoursLabel ul)] else []) ++
         (if (0 <? minutes)%Z || (0 <? hours)%Z
          then [formatUnit minutes (minutesLabel ul)] else []) ++
         [formatUnit seconds (secondsLabel ul)])
  | None =>
      if (0 <? hours)%Z then
        show hours +:+ separator +:+ pad2 minutes +:+ separator +:+ pad2 seconds
      else if (0 <? minutes)%Z then
        show minutes +:+ separator +:+ pad2 seconds
      else show seconds
  end.

(** What the four parts stand for. *)
Definition recompose (p : Parts) : Z :=
  (hours p * 3600000 + minutes p * 60000 + seconds p * 1000 + milliseconds p)%Z.

(** The clock display of three fields, and of two. *)
Definition clock3 (sep a b c : string) : string := a +:+ sep +:+ b +:+ sep +:+ c.
Definition clock2 (sep b c : string) : string := b +:+ sep +:+ c.

(** Options that set the unit labels and nothing else. *)
Definition with_labels (ul : UnitLabels) : DurationFormatOptions :=
  mkOptions None None None None None None None None (Some ul) None.
End Duration.

(** * The security rules of the store

    [firestore.rules]: documents of [users] and [voiceMessages] can be
    read by everyone, created by a signed-in user under conditions on the
    new document, and neither updated nor deleted.  A request that no
    [allow] statement admits is denied, and so is one whose condition
    cannot be evaluated. *)

Module Rules.

(** The values a field of a document can hold, as far as the rules tell
    them apart. *)
Inductive Value : Type :=
  | VBool (b : bool)
  | VString (s : string)
  | VTimestamp (t : Z)
  | VOther (tag : nat).

Inductive Method : Type := Get | List | Create | Update | Delete.

Record Request := mkRequest {
  auth : option string;          (* [request.auth.uid], or [request.auth == null] *)
  time : Z;                      (* [request.time] *)
  data : gmap string Value;      (* [request.resource.data] *)
}.

Definition isSignedIn (request : Request) : bool :=
  match auth request with
  | Some _ => true
  | None => false
  end.

Definition isServerTimestamp (request : Request) (field : Value) : bool :=
  match field with
  | VTimestamp t => bool_decide (t = time request)
  | _ => false
  end.

(** [data.keys().hasAll(keys)] *)
Definition hasAll (keys : list string) (d : gmap string Value) : bool :=
  forallb (fun k => bool_decide (is_Some (d !! k))) keys.

Definition isCreatingNewDocWithServerTimestamp (request : Request) : bool :=
  hasAll ["createdAt"; "createdById"; "isActive"] (data request) &&
  match data request !! "createdAt", data request !! "createdById",
        data request !! "isActive", auth request with
  | Some createdAt, Some createdById, Some isActive, Some uid =>
      isServerTimestamp request createdAt &&
      match createdById with VString s => bool_decide (s = uid) | _ => false end &&
      match isActive with VBool b => b | _ => false end
  | _, _, _, _ => false
  end.

(** The body shared by [match /users/{userId}] and
    [match /voiceMessages/{messageId}]. *)
Definition document_rule (m : Method) (request : Request) : bool :=
  match m with
  | Get | List => true
  | Create => isSignedIn request && isCreatingNewDocWithServerTimestamp request
  | Update | Delete => false
  end.

(** [path] is the document path below [/databases/{database}/documents],
    by segments. *)
Definition allow (m : Method) (path : list string) (request : Request) : bool :=
  match path with
  | [collection; _] =>
      (bool_decide (collection = "users") && document_rule m request) ||
      (bool_decide (collection = "voiceMessages") && document_rule m request)
  | _ => false
  end.

Definition is_write (m : Method) : bool :=
  match m with
  | Get | List => false
  | _ => true
  end.
End Rules.

(** * The callbacks handler *)

(** ** The built-in [Map], as ECMA-262 describes it

    [Map] data is a list of slots.  [set] overwrites the value of the slot
    that already holds the key and otherwise appends a slot; [delete]
    empties the slot of the key and leaves the hole in place; [size] counts
    the slots that are still filled.  [forEach] walks the slots by index
    and re-reads the length after every call, which is what makes removal
    and insertion during a traversal well defined. *)

Module JSMap.
Section JSMap.
Context {V : Type}.

Definition t : Type := list (option (string * V)).

Definition holds (k : string) (p : option (string * V)) : bool :=
  match p with
  | Some (k', _) => bool_decide (k' = k)
  | None => false
  end.

Definition new : t := [].

Definition has (k : string) (m : t) : bool := existsb (holds k) m.

Fixpoint get (k : string) (m : t) : option V :=
  match m with
  | [] => None
  | Some (k', v) :: m' => if bool_decide (k' = k) then Some v else get k m'
  | None :: m' => get k m'
  end.

Fixpoint set (k : string) (v : V) (m : t) : t :=
  match m with
  | [] => [Some (k, v)]
  | p :: m' => if holds k p then Some (k, v) :: m' else p :: set k v m'
  end.

(** A [Map] holds a key in at most one slot, so at most one slot is
    emptied here. *)
Definition delete (k : string) (m : t) : t :=
  map (fun p => if holds k p then None else p) m.

(** The filled slots, in insertion order. *)
Definition entries (m : t) : list (string * V) := omap id m.

Definition keys (m : t) : list string := (entries m).*1.

Definition size (m : t) : nat := length (entries m).
End JSMap.
Arguments t : clear implicits.
End JSMap.

(** ** Data model *)

Record CollectionReference := mkRef { path : string }.

(** Snapshots are opaque to the handler; it only passes them on. *)
Definition Snapshot : Type := nat.

Abbreviation loc := nat (only parsing).
Abbreviation Handle := nat (only parsing).

(** What the rest of the application can do with the handler: the four
    public methods.  An observer is a JavaScript function; [tag] stands for
    its identity and [body] for the handler methods it calls when it is
    invoked with a snapshot, the snapshot standing for all that its
    behaviour depends on. *)
Inductive Op : Type :=
  | OpAddCallback (collectionRef : CollectionReference) (documentId : string)
      (callback : Callback) (callbackId : option string) (overwrite : bool)
  | OpRemoveCallback (collectionRef : CollectionReference)
      (documentId : string) (callbackId : string)
  | OpAddCollectionCallback (collectionRef : CollectionReference)
      (callback : Callback) (callbackId : option string) (overwrite : bool)
  | OpRemoveCollectionCallback (collectionRef : CollectionReference)
      (callbackId : string)
with Callback : Type :=
  | Fn (tag : nat) (body : Snapshot -> list Op).

Definition body_of (cb : Callback) : Snapshot -> list Op :=
  match cb with Fn _ b => b end.

(** A watchable resource of the remote store.  The two kinds are watched
    through different overloads of [onSnapshot] and are kept in different
    registries. *)
Inductive Resource : Type :=
  | Document (key : string)
  | Collection (key : string).

#[global] Instance Resource_eq_dec : EqDecision Resource.
Proof. solve_decision. Defined.

(** The closure passed to [onSnapshot].  The document handler captures the
    key and looks the entry up again on every snapshot; the collection
    handler captures the entry object itself. *)
Inductive Handler : Type :=
  | DocHandler (key : string)
  | ColHandler (entry : loc).

(** A watch at the remote store; [is_open] turns false when its
    [unsubscribe] function is called. *)
Record Watch := mkWatch {
  target : Resource;
  handler : Handler;
  is_open : bool;
}.

(** [Callback<Read>] and [CollectionCallback<Read>] of the source. *)
Record Entry := mkEntry {
  unsubscribe : option Handle;
  func : JSMap.t Callback;
}.

#[global] Instance Entry_inhabited : Inhabited Entry :=
  populate (mkEntry None JSMap.new).

Record State := mkState {
  callbacks : gmap string loc;
  collectionCallbacks : gmap string loc;
  heap : list Entry;
  watches : list Watch;
  drawn : nat;
}.

Definition init : State := mkState ∅ ∅ [] [] 0.

Definition set_callbacks (f : gmap string loc -> gmap string loc) (s : State) : State :=
  mkState (f (callbacks s)) (collectionCallbacks s) (heap s) (watches s) (drawn s).

Definition set_collectionCallbacks (f : gmap string loc -> gmap string loc) (s : State) : State :=
  mkState (callbacks s) (f (collectionCallbacks s)) (heap s) (watches s) (drawn s).

Definition set_heap (f : list Entry -> list Entry) (s : State) : State :=
  mkState (callbacks s) (collectionCallbacks s) (f (heap s)) (watches s) (drawn s).

Definition set_watches (f : list Watch -> list Watch) (s : State) : State :=
  mkState (callbacks s) (collectionCallbacks s) (heap s) (f (watches s)) (drawn s).

Definition set_drawn (f : nat -> nat) (s : State) : State :=
  mkState (callbacks s) (collectionCallbacks s) (heap s) (watches s) (f (drawn s)).

(** ** The remote store and the object heap *)

(** [onSnapshot(ref, handler)] opens a watch and returns its
    [unsubscribe]; the handle is the index of the watch.  The calls into
    the Firestore SDK ([doc], [onSnapshot], [unsubscribe]) are taken to
    return: the class neither catches nor retries their failures, and a
    failing [doc] or [onSnapshot] leaves the registries as they were. *)
Definition onSnapshot (r : Resource) (hd : Handler) (s : State) : Handle * State :=
  (length (watches s), set_watches (fun ws => ws ++ [mkWatch r hd true]) s).

Definition close (w : Watch) : Watch := mkWatch (target w) (handler w) false.

(** [entry.unsubscribe?.()] *)
Definition call_unsubscribe (u : option Handle) (s : State) : State :=
  match u with
  | Some h => set_watches (alter close h) s
  | None => s
  end.

(** An object literal: a fresh object on the heap. *)
Definition alloc (e : Entry) (s : State) : loc * State :=
  (length (heap s), set_heap (fun hp => hp ++ [e]) s).

Definition deref (l : loc) (s : State) : Entry := heap s !!! l.

Definition with_func (f : JSMap.t Callback -> JSMap.t Callback) (e : Entry) : Entry :=
  mkEntry (unsubscribe e) (f (func e)).

Definition with_unsubscribe (u : option Handle) (e : Entry) : Entry :=
  mkEntry u (func e).

(** [entry.func.set(id, cb)], [entry.func.delete(id)],
    [entry.unsubscribe = u] *)
Definition func_set (l : loc) (cbId : string) (cb : Callback) (s : State) : State :=
  set_heap (alter (with_func (JSMap.set cbId cb)) l) s.

Definition func_delete (l : loc) (cbId : string) (s : State) : State :=
  set_heap (alter (with_func (JSMap.delete cbId)) l) s.

Definition assign_unsubscribe (l : loc) (u : option Handle) (s : State) : State :=
  set_heap (alter (with_unsubscribe u) l) s.

Definition func_has (l : loc) (cbId : string) (s : State) : bool :=
  JSMap.has cbId (func (deref l s)).

Definition func_size (l : loc) (s : State) : nat :=
  JSMap.size (func (deref l s)).

(** ** The methods of [CallbacksHandler] *)

Section Handler.
(** [nanoid()]: the n-th identifier the generator hands out.  Nothing is
    assumed about it, not even that it never repeats. *)
Variable nanoid : nat -> string.

(** [callbackId ?? nanoid()] *)
Definition id_or_fresh (callbackId : option string) (s : State) : string * State :=
  match callbackId with
  | Some i => (i, s)
  | None => (nanoid (drawn s), set_drawn S s)
  end.

Definition document_key (collectionRef : CollectionReference) (documentId : string) : string :=
  path collectionRef +:+ "/" +:+ documentId.

Definition createDocumentCallbackEntry
    (collectionRef : CollectionReference) (documentId : string) (s : State) : loc * State :=
  let key := document_key collectionRef documentId in
  let '(unsub, s) := onSnapshot (Document key) (DocHandler key) s in
  let '(entry, s) := alloc (mkEntry (Some unsub) JSMap.new) s in
  (entry, set_callbacks <[key := entry]> s).

Definition addCallback
    (collectionRef : CollectionReference) (documentId : string)
    (callback : Callback) (callbackId : option string) (overwrite : bool)
    (s : State) : string * State :=
  let key := document_key collectionRef documentId in
  let '(cbId, s) := id_or_fresh callbackId s in
  let '(callbackEntry, s) :=
    match callbacks s !! key with
    | Some e => (e, s)
    | None => createDocumentCallbackEntry collectionRef documentId s
    end in
  if overwrite then (cbId, func_set callbackEntry cbId callback s)
  else if negb (func_has callbackEntry cbId s)
       then (cbId, func_set callbackEntry cbId callback s)
       else (cbId, s).

Definition removeCallback
    (collectionRef : CollectionReference) (documentId : string)
    (callbackId : string) (s : State) : State :=
  let key := document_key collectionRef documentId in
  match callbacks s !! key with
  | Some callbackEntry =>
      let s := func_delete callbackEntry callbackId s in
      if func_size callbackEntry s =? 0 then
        let s := call_unsubscribe (unsubscribe (deref callbackEntry s)) s in
        set_callbacks (delete key) s
      else s
  | None => s
  end.

Definition addCollectionCallback
    (collectionRef : CollectionReference)
    (callback : Callback) (callbackId : option string) (overwrite : bool)
    (s : State) : string * State :=
  let key := path collectionRef in
  let '(colCallback, s) :=
    match collectionCallbacks s !! key with
    | Some e => (e, s)
    | None =>
        let '(e, s) := alloc (mkEntry None JSMap.new) s in
        let '(unsub, s) := onSnapshot (Collection key) (ColHandler e) s in
        let s := assign_unsubscribe e (Some unsub) s in
        (e, set_collectionCallbacks <[key := e]> s)
    end in
  let '(cbId, s) := id_or_fresh callbackId s in
  if overwrite then (cbId, func_set colCallback cbId callback s)
  else if negb (func_has colCallback cbId s)
       then (cbId, func_set colCallback cbId callback s)
       else (cbId, s).

Definition removeCollectionCallback
    (collectionRef : CollectionReference)
    (callbackId : string) (s : State) : State :=
  let key := path collectionRef in
  match collectionCallbacks s !! key with
  | Some colCallback =>
      let s := func_delete colCallback callbackId s in
      if func_size colCallback s =? 0 then
        let s := call_unsubscribe (unsubscribe (deref colCallback s)) s in
        set_collectionCallbacks (delete key) s
      else s
  | None => s
  end.

(** ** Snapshot delivery

    What the run leaves behind to be observed: which observer was called
    with which snapshot, and which method calls were made. *)

Inductive Event : Type :=
  | Called (r : Resource) (cbId : string) (cb : Callback) (snap : Snapshot)
  | Registered (r : Resource) (cbId : string)
  | Unregistered (r : Resource) (cbId : string).

Definition exec (o : Op) (s : State) : State * Event :=
  match o with
  | OpAddCallback collectionRef documentId callback callbackId overwrite =>
      let '(cbId, s') :=
        addCallback collectionRef documentId callback callbackId overwrite s in
      (s', Registered (Document (document_key collectionRef documentId)) cbId)
  | OpRemoveCallback collectionRef documentId callbackId =>
      (removeCallback collectionRef documentId callbackId s,
       Unregistered (Document (document_key collectionRef documentId)) callbackId)
  | OpAddCollectionCallback collectionRef callback callbackId overwrite =>
      let '(cbId, s') :=
        addCollectionCallback collectionRef callback callbackId overwrite s in
      (s', Registered (Collection (path collectionRef)) cbId)
  | OpRemoveCollectionCallback collectionRef callbackId =>
      (removeCollectionCallback collectionRef callbackId s,
       Unregistered (Collection (path collectionRef)) callbackId)
  end.

Fixpoint exec_all (ops : list Op) (s : State) : State * list Event :=
  match ops with
  | [] => (s, [])
  | o :: ops' =>
      let '(s1, e) := exec o s in
      let '(s2, es) := exec_all ops' s1 in
      (s2, e :: es)
  end.

(** [cb(snapshot)]: the observer runs to completion, making whatever
    method calls it makes. *)
Definition invoke (r : Resource) (cbId : string) (cb : Callback)
    (snap : Snapshot) (s : State) : State * list Event :=
  let '(s', es) := exec_all (body_of cb snap) s in
  (s', Called r cbId cb snap :: es).

(** [m.func.forEach((cb) => cb(snapshot))] on the entry object at [m],
    from slot [index] on.  The slots are read from the heap at every
    step, so the traversal sees what the observers called so far did to
    the map.  An observer that keeps registering new observers makes the
    traversal endless; [fuel] bounds the number of slots visited and the
    flag tells whether the end of the map was reached. *)
Fixpoint forEach (fuel : nat) (m : loc) (r : Resource) (snap : Snapshot)
    (index : nat) (s : State) : bool * State * list Event :=
  match fuel with
  | 0 => (false, s, [])
  | S fuel' =>
      match func (deref m s) !! index with
      | None => (true, s, [])
      | Some None => forEach fuel' m r snap (S index) s
      | Some (Some (cbId, cb)) =>
          let '(s1, es1) := invoke r cbId cb snap s in
          let '(fin, s2, es2) := forEach fuel' m r snap (S index) s1 in
          (fin, s2, es1 ++ es2)
      end
  end.

(** The two closures given to [onSnapshot]. *)
Definition run_handler (fuel : nat) (w : Watch) (snap : Snapshot)
    (s : State) : bool * State * list Event :=
  match handler w with
  | DocHandler key =>
      match callbacks s !! key with
      | Some e => forEach fuel e (target w) snap 0 s
      | None => (true, s, [])
      end
  | ColHandler colCallback => forEach fuel colCallback (target w) snap 0 s
  end.

(** The store delivers a snapshot on a watch that is still open. *)
Definition deliver (fuel : nat) (h : Handle) (snap : Snapshot)
    (s : State) : bool * State * list Event :=
  match watches s !! h with
  | Some w => if is_open w then run_handler fuel w snap s else (true, s, [])
  | None => (true, s, [])
  end.

(** A run of the program: method calls from the application and
    snapshots from the store, one after the other. *)
Inductive Action : Type :=
  | Do (o : Op)
  | Deliver (fuel : nat) (h : Handle) (snap : Snapshot).

Definition step (a : Action) (s : State) : State * list Event :=
  match a with
  | Do o => let '(s', e) := exec o s in (s', [e])
  | Deliver fuel h snap => let '(_, s', es) := deliver fuel h snap s in (s', es)
  end.

Fixpoint run (acts : list Action) (s : State) : State * list Event :=
  match acts with
  | [] => (s, [])
  | a :: acts' =>
      let '(s1, es1) := step a s in
      let '(s2, es2) := run acts' s1 in
      (s2, es1 ++ es2)
  end.

Definition state_after (acts : list Action) : State := (run acts init).1.
Definition trace_of (acts : list Action) : list Event := (run acts init).2.

(** ** One view of both paths

    The collection path mirrors the document path; [register] and
    [unregister] are the two methods with the kind of resource as a
    parameter.  [addCallback_register] and its siblings below show that
    the four methods are instances of them. *)

Definition registry (r : Resource) (s : State) : option loc :=
  match r with
  | Document key => callbacks s !! key
  | Collection key => collectionCallbacks s !! key
  end.

Definition set_registry (r : Resource) (f : string -> gmap string loc -> gmap string loc)
    (s : State) : State :=
  match r with
  | Document key => set_callbacks (f key) s
  | Collection key => set_collectionCallbacks (f key) s
  end.

Definition handler_for (r : Resource) (l : loc) : Handler :=
  match r with
  | Document key => DocHandler key
  | Collection _ => ColHandler l
  end.

Definition open_entry (r : Resource) (s : State) : loc * State :=
  let l := length (heap s) in
  let h := length (watches s) in
  (l,
   set_registry r (fun key => <[key := l]>)
     (set_heap (fun hp => hp ++ [mkEntry (Some h) JSMap.new])
        (set_watches (fun ws => ws ++ [mkWatch r (handler_for r l) true]) s))).

Definition register (r : Resource) (cb : Callback) (callbackId : option string)
    (overwrite : bool) (s : State) : string * State :=
  let '(cbId, s) := id_or_fresh callbackId s in
  let '(l, s) :=
    match registry r s with
    | Some l => (l, s)
    | None => open_entry r s
    end in
  if overwrite || negb (func_has l cbId s)
  then (cbId, func_set l cbId cb s)
  else (cbId, s).

Definition unregister (r : Resource) (cbId : string) (s : State) : State :=
  match registry r s with
  | Some l =>
      let s := func_delete l cbId s in
      if func_size l s =? 0 then
        set_registry r (fun key => delete key)
          (call_unsubscribe (unsubscribe (deref l s)) s)
      else s
  | None => s
  end.

(** ** What is observed of a state *)

(** The number of watches on [r] that are open at the store. *)
Definition watching (r : Resource) (w : Watch) : bool :=
  is_open w && bool_decide (target w = r).

Definition open_handles (r : Resource) (s : State) : nat :=
  length (filter (fun w => watching r w = true) (watches s)).

Definition handle_open (h : Handle) (s : State) : bool :=
  match watches s !! h with
  | Some w => is_open w
  | None => false
  end.

(** The registrations under [r], in dispatch order. *)
Definition registered (r : Resource) (s : State) : list (string * Callback) :=
  match registry r s with
  | Some l => JSMap.entries (func (deref l s))
  | None => []
  end.

(** The callback bound to [cbId] under [r], and the entry object of [r]. *)
Definition callback_at (r : Resource) (cbId : string) (s : State) : option Callback :=
  match registry r s with
  | Some l => JSMap.get cbId (func (deref l s))
  | None => None
  end.

Definition entry_of (r : Resource) (s : State) : option Entry :=
  match registry r s with
  | Some l => heap s !! l
  | None => None
  end.

(** The resource a method call is about. *)
Definition op_resource (o : Op) : Resource :=
  match o with
  | OpAddCallback collectionRef documentId _ _ _
  | OpRemoveCallback collectionRef documentId _ =>
      Document (document_key collectionRef documentId)
  | OpAddCollectionCallback collectionRef _ _ _
  | OpRemoveCollectionCallback collectionRef _ =>
      Collection (path collectionRef)
  end.

(** An observer that, given [snap], makes no method call about [r]. *)
Definition quiet (r : Resource) (snap : Snapshot) (cb : Callback) : Prop :=
  Forall (fun o => op_resource o <> r) (body_of cb snap).

(** The call of the observer registered as [p] with [snap]. *)
Definition call_of (r : Resource) (snap : Snapshot) (p : string * Callback) : Event :=
  Called r p.1 p.2 snap.

(** The observer calls of a trace, in order. *)
Definition is_call (ev : Event) : bool :=
  match ev with
  | Called _ _ _ _ => true
  | _ => false
  end.

Definition calls (es : list Event) : list Event :=
  filter (fun ev => is_call ev = true) es.

(** No observer is called under an id after that id was unregistered,
    unless the id was registered again in between. *)
Definition no_stale_call (tr : list Event) : Prop :=
  forall i j r cbId cb snap,
    i < j ->
    tr !! i = Some (Unregistered r cbId) ->
    tr !! j = Some (Called r cbId cb snap) ->
    exists k, i < k < j /\ tr !! k = Some (Registered r cbId).

(** Creating an entry and storing the first callback in it. *)
Definition first_registration (r : Resource) (cbId : string) (cb : Callback)
    (s : State) : State :=
  set_registry r (fun key => <[key := length (heap s)]>)
    (set_heap (fun hp => hp ++ [mkEntry (Some (length (watches s))) [Some (cbId, cb)]])
       (set_watches
          (fun ws => ws ++ [mkWatch r (handler_for r (length (heap s))) true]) s)).

(** What is seen of one registry and its watches. *)
Definition collection_side_unchanged (s s' : State) : Prop :=
  collectionCallbacks s' = collectionCallbacks s /\
  forall key, entry_of (Collection key) s' = entry_of (Collection key) s /\
              open_handles (Collection key) s' = open_handles (Collection key) s.

Definition document_side_unchanged (s s' : State) : Prop :=
  callbacks s' = callbacks s /\
  forall key, entry_of (Document key) s' = entry_of (Document key) s /\
              open_handles (Document key) s' = open_handles (Document key) s.

(** Fan-out to everything registered: the delivery on [h] ends and
    calls each callback registered for the watched resource once, in
    dispatch order, and nothing else. *)
Definition fans_out_to_all (h : Handle) (snap : Snapshot) (s : State) : Prop :=
  exists w fuel s' es,
    watches s !! h = Some w /\
    deliver fuel h snap s = (true, s', es) /\
    calls es = call_of (target w) snap <$> registered (target w) s.

(** The id a register call uses. *)
Definition used_id (callbackId : option string) (s : State) : string :=
  match callbackId with
  | Some i => i
  | None => nanoid (drawn s)
  end.

(** A document register call whose returned id, given to
    [removeCallback], removes the registration that this call made and
    nothing else. *)
Definition unregister_removes_own (collectionRef : CollectionReference)
    (documentId : string) (cb : Callback) (callbackId : option string)
    (overwrite : bool) (s : State) : Prop :=
  let r := Document (document_key collectionRef documentId) in
  let '(cbId, s1) := addCallback collectionRef documentId cb callbackId overwrite s in
  cbId = used_id callbackId s /\
  callback_at r cbId s1 = Some cb /\
  registered r (removeCallback collectionRef documentId cbId s1) =
    filter (fun p => p.1 <> cbId) (registered r s1).

(** ** The shape of the states the class can be in *)

Record wf (s : State) : Prop := mk_wf {
  (** an entry in a registry has callbacks and owns the open watch on
      its resource, whose handler is the closure made for this entry *)
  wf_owned : forall r l, registry r s = Some l ->
    exists e h, heap s !! l = Some e /\ JSMap.entries (func e) <> [] /\
      unsubscribe e = Some h /\
      watches s !! h = Some (mkWatch r (handler_for r l) true);
  (** an open watch belongs to the entry of its resource *)
  wf_watch : forall h w, watches s !! h = Some w -> is_open w = true ->
    exists l e, registry (target w) s = Some l /\ heap s !! l = Some e /\
      unsubscribe e = Some h;
  (** an entry object that left its registry is empty *)
  wf_detached : forall l e, heap s !! l = Some e ->
    JSMap.entries (func e) <> [] -> exists r, registry r s = Some l;
  (** a [Map] holds a key once *)
  wf_keys : forall l e, heap s !! l = Some e -> NoDup (JSMap.keys (func e));
}.

(** Whether the last register or unregister call about [cbId] under [r]
    in the trace was an unregister call. *)
Definition registers (r : Resource) (cbId : string) (ev : Event) : bool :=
  match ev with
  | Registered r' i => bool_decide (r' = r /\ i = cbId)
  | _ => false
  end.

Definition unregisters (r : Resource) (cbId : string) (ev : Event) : bool :=
  match ev with
  | Unregistered r' i => bool_decide (r' = r /\ i = cbId)
  | _ => false
  end.

Definition stale_step (r : Resource) (cbId : string) (b : bool) (ev : Event) : bool :=
  if unregisters r cbId ev then true
  else if registers r cbId ev then false
  else b.

Definition stale (r : Resource) (cbId : string) (tr : list Event) : bool :=
  foldl (stale_step r cbId) false tr.

(** What a run keeps true of its state and its trace together. *)
Definition run_inv (s : State) (tr : list Event) : Prop :=
  wf s /\ no_stale_call tr /\
  forall r cbId, stale r cbId tr = true -> callback_at r cbId s = None.

(** The object walked by a [forEach] for [r] is bound to [r] or to
    nothing. *)
Definition walked (m : loc) (r : Resource) (s : State) : Prop :=
  m < length (heap s) /\ forall r', registry r' s = Some m -> r' = r.

(** ** Further observations *)

(** All watches open at the store, and all entries of the two
    registries. *)
Definition open_total (s : State) : nat :=
  length (filter (fun w => is_open w = true) (watches s)).

Definition entries_total (s : State) : nat :=
  size (callbacks s) + size (collectionCallbacks s).




(** ** A concrete setting: the members of team [t1] *)

Definition nid (n : nat) : string := "id-" +:+ pretty n.

Definition members : CollectionReference := mkRef "teams/t1/members".

Definition members_u1 : Resource := Document "teams/t1/members/u1".

(** Three observers that only look, and one that unregisters ["b"]. *)
Definition cbA : Callback := Fn 1 (fun _ => []).
Definition cbB : Callback := Fn 2 (fun _ => []).
Definition cbC : Callback := Fn 3 (fun _ => []).
Definition cbK : Callback := Fn 4 (fun _ => [OpRemoveCallback members "u1" "b"]).

Definition one_observer : list Action :=
  [Do (OpAddCallback members "u1" cbA (Some "a") false)].

Definition two_observers : list Action :=
  [Do (OpAddCallback members "u1" cbA (Some "a") false);
   Do (OpAddCallback members "u1" cbB (Some "b") false)].





Definition remover_first : list Action :=
  [Do (OpAddCallback members "u1" cbK (Some "k") false);
   Do (OpAddCallback members "u1" cbB (Some "b") false)].

(** * Properties *)

(** ** Facts about [Map] *)

Section JSMapFacts.
Context {V : Type}.
Implicit Types (m : JSMap.t V) (k : string) (v : V).

Lemma entries_cons_Some (p : string * V) m :
  JSMap.entries (Some p :: m) = p :: JSMap.entries m.
Proof. reflexivity. Qed.

Lemma entries_cons_None m : JSMap.entries (None :: m) = JSMap.entries m.
Proof. reflexivity. Qed.

Lemma has_false_holds k m :
  JSMap.has k m = false -> Forall (fun p => JSMap.holds k p = false) m.
Proof.
  induction m as [|p m IH]; simpl; [constructor|].
  intros [Hp Hm]%orb_false_iff. constructor; auto.
Qed.

Lemma has_keys k m : JSMap.has k m = true <-> k ∈ JSMap.keys m.
Proof.
  unfold JSMap.keys.
  induction m as [|[[k' v']|] m IH].
  - split; [discriminate | by intros ?%elem_of_nil].
  - rewrite entries_cons_Some, fmap_cons, elem_of_cons. cbn [JSMap.has existsb JSMap.holds fst].
    rewrite orb_true_iff, bool_decide_eq_true.
    split; (intros [->|H]; [by left|right; by apply IH]).
  - rewrite entries_cons_None. exact IH.
Qed.

Lemma has_false_keys k m : JSMap.has k m = false <-> k ∉ JSMap.keys m.
Proof. rewrite <- has_keys. destruct (JSMap.has k m); naive_solver. Qed.

Lemma delete_absent k m : JSMap.has k m = false -> JSMap.delete k m = m.
Proof.
  intros H%has_false_holds. unfold JSMap.delete.
  induction H as [|p m Hp _ IH]; simpl; [done|]. by rewrite Hp, IH.
Qed.

Lemma has_delete k m : JSMap.has k (JSMap.delete k m) = false.
Proof.
  unfold JSMap.delete.
  induction m as [|p m IH]; simpl; [done|].
  rewrite IH, orb_false_r. by destruct (JSMap.holds k p) eqn:E.
Qed.

Lemma delete_delete k m : JSMap.delete k (JSMap.delete k m) = JSMap.delete k m.
Proof. apply delete_absent, has_delete. Qed.

Lemma delete_cons k p m :
  JSMap.delete k (p :: m) = (if JSMap.holds k p then None else p) :: JSMap.delete k m.
Proof. reflexivity. Qed.

Lemma entries_delete k m :
  JSMap.entries (JSMap.delete k m) = filter (fun p => p.1 <> k) (JSMap.entries m).
Proof.
  induction m as [|[[k' v']|] m IH]; [done| |].
  - rewrite delete_cons, entries_cons_Some, filter_cons. cbn [JSMap.holds fst].
    case_bool_decide; case_decide; try congruence.
    + by rewrite entries_cons_None.
    + by rewrite entries_cons_Some, IH.
  - by rewrite delete_cons, !entries_cons_None.
Qed.

Lemma set_cons k v p m :
  JSMap.set k v (p :: m) = if JSMap.holds k p then Some (k, v) :: m else p :: JSMap.set k v m.
Proof. reflexivity. Qed.

Lemma entries_set_absent k v m :
  JSMap.has k m = false -> JSMap.entries (JSMap.set k v m) = JSMap.entries m ++ [(k, v)].
Proof.
  induction m as [|p m IH]; [done|]. cbn [JSMap.has existsb].
  intros [Hp Hm]%orb_false_iff. rewrite set_cons, Hp.
  destruct p.
  - by rewrite !entries_cons_Some, IH.
  - by rewrite !entries_cons_None, IH.
Qed.

(** Overwriting keeps every registration in its slot. *)
Lemma entries_set_present k v m :
  JSMap.has k m = true ->
  exists pre old post,
    JSMap.entries m = pre ++ (k, old) :: post /\
    JSMap.entries (JSMap.set k v m) = pre ++ (k, v) :: post /\
    k ∉ pre.*1.
Proof.
  induction m as [|p m IH]; [discriminate|]. cbn [JSMap.has existsb].
  rewrite set_cons.
  destruct (JSMap.holds k p) eqn:Hp.
  - intros _. destruct p as [[k' v']|]; simpl in Hp; [|discriminate].
    apply bool_decide_eq_true in Hp as ->.
    exists [], v', (JSMap.entries m). split_and!; [done|done|]. apply not_elem_of_nil.
  - intros (pre & old & post & E1 & E2 & Hn)%IH.
    destruct p as [[k' v']|].
    + apply bool_decide_eq_false in Hp.
      exists ((k', v') :: pre), old, post.
      rewrite !entries_cons_Some, E1, E2. split_and!; [done|done|].
      rewrite fmap_cons, elem_of_cons. intros [?|?]; [by subst|done].
    + exists pre, old, post. by rewrite !entries_cons_None, E1, E2.
Qed.

Lemma keys_set_present k v m :
  JSMap.has k m = true -> JSMap.keys (JSMap.set k v m) = JSMap.keys m.
Proof.
  intros (pre & old & post & E1 & E2 & _)%(entries_set_present k v).
  unfold JSMap.keys. rewrite E1, E2, !fmap_app. done.
Qed.

Lemma entries_set_nonempty k v m : JSMap.entries (JSMap.set k v m) <> [].
Proof.
  destruct (JSMap.has k m) eqn:E.
  - destruct (entries_set_present k v m E) as (pre & old & post & _ & -> & _).
    by destruct pre.
  - rewrite entries_set_absent by done. by destruct (JSMap.entries m).
Qed.

Lemma get_set k v m : JSMap.get k (JSMap.set k v m) = Some v.
Proof.
  induction m as [|[[k' v']|] m IH]; simpl.
  - by rewrite bool_decide_eq_true_2.
  - case_bool_decide as Hk; simpl.
    + by rewrite bool_decide_eq_true_2.
    + by rewrite bool_decide_eq_false_2.
  - done.
Qed.

Lemma get_has k m : JSMap.has k m = true <-> is_Some (JSMap.get k m).
Proof.
  induction m as [|[[k' v']|] m IH]; simpl.
  - split; [discriminate | by intros [? ?]].
  - case_bool_decide; simpl; [|done]. split; eauto.
  - done.
Qed.

Lemma size_entries m : JSMap.size m = 0 <-> JSMap.entries m = [].
Proof. unfold JSMap.size. by destruct (JSMap.entries m). Qed.

Lemma entries_lookup m i k v :
  m !! i = Some (Some (k, v)) -> (k, v) ∈ JSMap.entries m.
Proof.
  intros H. unfold JSMap.entries. apply list_elem_of_omap.
  exists (Some (k, v)). split; [|done]. by eapply list_elem_of_lookup_2.
Qed.

(** Keys stay unique: the representation never holds a key twice. *)
Lemma keys_set_NoDup k v m : NoDup (JSMap.keys m) -> NoDup (JSMap.keys (JSMap.set k v m)).
Proof.
  intros Hnd. destruct (JSMap.has k m) eqn:E.
  - by rewrite keys_set_present.
  - unfold JSMap.keys. rewrite entries_set_absent, fmap_app by done.
    apply NoDup_app. split_and!; [done| |apply NoDup_singleton].
    intros x Hx ->%list_elem_of_singleton. by apply has_false_keys in E.
Qed.

Lemma keys_delete_NoDup k m : NoDup (JSMap.keys m) -> NoDup (JSMap.keys (JSMap.delete k m)).
Proof.
  unfold JSMap.keys. rewrite entries_delete.
  generalize (JSMap.entries m). intros l.
  induction l as [|[k' v'] l IH]; [done|].
  rewrite fmap_cons, NoDup_cons. intros [Hn Hnd]. rewrite filter_cons. cbn [fst].
  case_decide; [|auto].
  rewrite fmap_cons. apply NoDup_cons. split; [|auto].
  intros Hin. apply Hn. apply list_elem_of_fmap in Hin as [[k2 v2] [-> Hin]].
  apply list_elem_of_filter in Hin as [_ Hin]. apply list_elem_of_fmap. by exists (k2, v2).
Qed.
Lemma get_set_ne k k' v m : k <> k' -> JSMap.get k' (JSMap.set k v m) = JSMap.get k' m.
Proof.
  intros Hne. induction m as [|[[k1 v1]|] m IH]; cbn [JSMap.set JSMap.get JSMap.holds].
  - by rewrite bool_decide_eq_false_2.
  - destruct (bool_decide_reflect (k1 = k)) as [->|Hk]; cbn [JSMap.get].
    + by rewrite !bool_decide_eq_false_2.
    + by rewrite IH.
  - done.
Qed.

Lemma get_delete_ne k k' m : k <> k' -> JSMap.get k' (JSMap.delete k m) = JSMap.get k' m.
Proof.
  intros Hne. induction m as [|[[k1 v1]|] m IH]; [done| |done].
  rewrite delete_cons. cbn [JSMap.holds JSMap.get].
  destruct (bool_decide_reflect (k1 = k)) as [->|Hk]; cbn [JSMap.get].
  - by rewrite bool_decide_eq_false_2.
  - by rewrite IH.
Qed.

Lemma get_delete k m : JSMap.get k (JSMap.delete k m) = None.
Proof.
  pose proof (has_delete k m) as H.
  destruct (JSMap.get k (JSMap.delete k m)) eqn:E; [|done].
  assert (JSMap.has k (JSMap.delete k m) = true) by (apply get_has; eauto).
  congruence.
Qed.

Lemma entries_set_get k v old m :
  JSMap.get k m = Some old ->
  exists pre post,
    JSMap.entries m = pre ++ (k, old) :: post /\
    JSMap.entries (JSMap.set k v m) = pre ++ (k, v) :: post /\
    k ∉ pre.*1.
Proof.
  induction m as [|[[k1 v1]|] m IH]; [discriminate| |].
  - cbn [JSMap.get]. rewrite set_cons. cbn [JSMap.holds].
    destruct (bool_decide_reflect (k1 = k)) as [->|Hk].
    + intros [= ->]. exists [], (JSMap.entries m).
      split_and!; [done|done|apply not_elem_of_nil].
    + intros (pre & post & E1 & E2 & Hn)%IH.
      exists ((k1, v1) :: pre), post. rewrite !entries_cons_Some, E1, E2.
      split_and!; [done|done|]. rewrite fmap_cons, elem_of_cons. intros [?|?]; [by subst|done].
  - cbn [JSMap.get]. rewrite set_cons. cbn [JSMap.holds].
    intros (pre & post & E1 & E2 & Hn)%IH.
    exists pre, post. by rewrite !entries_cons_None, E1, E2.
Qed.

Lemma get_None_has k m : JSMap.get k m = None <-> JSMap.has k m = false.
Proof.
  pose proof (get_has k m) as H. destruct (JSMap.has k m), (JSMap.get k m).
  - split; [done|discriminate].
  - destruct H as [H _]. by destruct (H eq_refl).
  - destruct H as [_ H]. by assert (false = true) by eauto.
  - done.
Qed.
End JSMapFacts.

(** ** The four methods are instances of [register] and [unregister] *)

Implicit Types (s : State) (r : Resource) (l : loc) (h : Handle)
  (cb : Callback) (e : Entry).

Lemma addCallback_register collectionRef documentId cb callbackId overwrite s :
  addCallback collectionRef documentId cb callbackId overwrite s =
  register (Document (document_key collectionRef documentId)) cb callbackId overwrite s.
Proof.
  unfold addCallback, register, createDocumentCallbackEntry, open_entry.
  destruct callbackId as [i|]; simpl;
    (destruct (callbacks s !! _); destruct overwrite; simpl; [done| |done|];
     by destruct (func_has _ _ _)).
Qed.

Lemma removeCallback_unregister collectionRef documentId cbId s :
  removeCallback collectionRef documentId cbId s =
  unregister (Document (document_key collectionRef documentId)) cbId s.
Proof. reflexivity. Qed.

Lemma alter_fresh (f : Entry -> Entry) (hp : list Entry) e :
  alter f (length hp) (hp ++ [e]) = hp ++ [f e].
Proof.
  replace (length hp) with (length hp + 0) by lia.
  by rewrite alter_app_r.
Qed.

Lemma addCollectionCallback_register collectionRef cb callbackId overwrite s :
  addCollectionCallback collectionRef cb callbackId overwrite s =
  register (Collection (path collectionRef)) cb callbackId overwrite s.
Proof.
  unfold addCollectionCallback, register, open_entry, assign_unsubscribe.
  destruct callbackId as [i|]; simpl;
    (destruct (collectionCallbacks s !! _); simpl;
     [destruct overwrite; simpl; [done|]; by destruct (func_has _ _ _)|]);
    unfold set_heap; simpl; rewrite alter_fresh; simpl;
    destruct overwrite; simpl; try done.
Qed.

Lemma removeCollectionCallback_unregister collectionRef cbId s :
  removeCollectionCallback collectionRef cbId s =
  unregister (Collection (path collectionRef)) cbId s.
Proof. reflexivity. Qed.

(** ** Reading a state after one of the primitive updates *)

Lemma registry_set_heap r f s : registry r (set_heap f s) = registry r s.
Proof. by destruct r. Qed.

Lemma registry_set_watches r f s : registry r (set_watches f s) = registry r s.
Proof. by destruct r. Qed.

Lemma registry_set_drawn r f s : registry r (set_drawn f s) = registry r s.
Proof. by destruct r. Qed.

Lemma heap_set_registry r f s : heap (set_registry r f s) = heap s.
Proof. by destruct r. Qed.

Lemma watches_set_registry r f s : watches (set_registry r f s) = watches s.
Proof. by destruct r. Qed.

Lemma registry_bind r r' l s :
  registry r' (set_registry r (fun key => <[key := l]>) s) =
  if decide (r' = r) then Some l else registry r' s.
Proof.
  destruct (decide (r' = r)) as [E|E]; destruct r as [k|k], r' as [k'|k'];
    simplify_eq; cbn; rewrite ?lookup_insert_eq; try done;
    rewrite lookup_insert_ne; congruence.
Qed.

Lemma registry_unbind r r' s :
  registry r' (set_registry r (fun key => delete key) s) =
  if decide (r' = r) then None else registry r' s.
Proof.
  destruct (decide (r' = r)) as [E|E]; destruct r as [k|k], r' as [k'|k'];
    simplify_eq; cbn; rewrite ?lookup_delete_eq; try done;
    rewrite lookup_delete_ne; congruence.
Qed.

Lemma deref_lookup l s e : heap s !! l = Some e -> deref l s = e.
Proof. apply list_lookup_total_correct. Qed.

Lemma wf_ext s s' :
  (forall r, registry r s' = registry r s) ->
  heap s' = heap s -> watches s' = watches s -> wf s -> wf s'.
Proof.
  intros Hr Hh Hw [H1 H2 H3 H4].
  split; rewrite ?Hh, ?Hw.
  - intros r l. rewrite Hr. apply H1.
  - intros h w ? ?. setoid_rewrite Hr. by apply H2.
  - intros l e ? ?. setoid_rewrite Hr. by eapply H3.
  - done.
Qed.

(** Two resources never share an entry object. *)
Lemma wf_registry_inj s r1 r2 l :
  wf s -> registry r1 s = Some l -> registry r2 s = Some l -> r1 = r2.
Proof.
  intros Hwf H1 H2.
  destruct (wf_owned s Hwf _ _ H1) as (e1 & h1 & He1 & _ & Hu1 & Hw1).
  destruct (wf_owned s Hwf _ _ H2) as (e2 & h2 & He2 & _ & Hu2 & Hw2).
  congruence.
Qed.

Lemma init_wf : wf init.
Proof.
  split.
  - intros [k|k] l; simpl; by rewrite lookup_empty.
  - intros h w; simpl. by rewrite lookup_nil.
  - intros l e; simpl. by rewrite lookup_nil.
  - intros l e; simpl. by rewrite lookup_nil.
Qed.

(** ** The invariant is kept *)

Lemma update_func_wf (g : JSMap.t Callback -> JSMap.t Callback) l r s :
  wf s -> registry r s = Some l ->
  (forall e, heap s !! l = Some e ->
     JSMap.entries (g (func e)) <> [] /\ NoDup (JSMap.keys (g (func e)))) ->
  wf (set_heap (alter (with_func g) l) s).
Proof.
  intros Hwf Hr Hg. split.
  - intros r' l'. rewrite registry_set_heap. intros H'.
    destruct (wf_owned s Hwf _ _ H') as (e & h & He & Hne & Hu & Hw).
    cbn [heap set_heap watches set_watches].
    destruct (decide (l = l')) as [->|Hn].
    + exists (with_func g e), h. rewrite list_lookup_alter_eq, He.
      split_and!; try done. by apply Hg.
    + exists e, h. by rewrite list_lookup_alter_ne.
  - intros h w Hw Ho.
    destruct (wf_watch s Hwf _ _ Hw Ho) as (l' & e & Hr' & He & Hu).
    exists l'. rewrite registry_set_heap. cbn [heap set_heap watches set_watches].
    destruct (decide (l = l')) as [->|Hn].
    + exists (with_func g e). by rewrite list_lookup_alter_eq, He.
    + exists e. by rewrite list_lookup_alter_ne.
  - intros l' e'. cbn [heap set_heap watches set_watches]. setoid_rewrite registry_set_heap.
    destruct (decide (l = l')) as [->|Hn].
    + intros _ _. by exists r.
    + rewrite list_lookup_alter_ne by done. apply (wf_detached s Hwf).
  - intros l' e'. cbn [heap set_heap watches set_watches].
    destruct (decide (l = l')) as [->|Hn].
    + rewrite list_lookup_alter_eq.
      destruct (heap s !! l') as [e|] eqn:He; [|done].
      intros [= <-]. by apply Hg.
    + rewrite list_lookup_alter_ne by done. apply (wf_keys s Hwf).
Qed.

Lemma func_set_wf l r cbId cb s :
  wf s -> registry r s = Some l -> wf (func_set l cbId cb s).
Proof.
  intros Hwf Hr. eapply update_func_wf; [done..|].
  intros e He. split; [apply entries_set_nonempty|].
  apply keys_set_NoDup, (wf_keys s Hwf l e He).
Qed.

Lemma open_entry_set r cbId cb s :
  func_set (length (heap s)) cbId cb (open_entry r s).2 =
  first_registration r cbId cb s.
Proof.
  unfold first_registration, open_entry, func_set.
  destruct r; cbn; unfold set_heap; cbn; by rewrite alter_fresh.
Qed.

Lemma open_entry_has r cbId s :
  func_has (length (heap s)) cbId (open_entry r s).2 = false.
Proof.
  unfold func_has, deref, open_entry. cbn [snd].
  rewrite heap_set_registry. cbn [heap set_heap set_watches].
  by rewrite list_lookup_total_middle.
Qed.

Lemma first_registration_wf r cbId cb s :
  wf s -> registry r s = None -> wf (first_registration r cbId cb s).
Proof.
  intros Hwf Hr. unfold first_registration. split.
  - intros r' l'. rewrite registry_bind, heap_set_registry, watches_set_registry.
    cbn [heap set_heap watches set_watches].
    case_decide as E.
    + subst r'. intros [= <-]. eexists _, _.
      rewrite !list_lookup_middle by done. split_and!; done.
    + intros H'. destruct (wf_owned s Hwf _ _ H') as (e & h & He & Hne & Hu & Hw).
      exists e, h. split_and!; try done; by apply lookup_app_l_Some.
  - intros h w. rewrite heap_set_registry, watches_set_registry.
    cbn [heap set_heap watches set_watches].
    intros [Hw|[Hle Hw]]%lookup_app_Some Ho.
    + destruct (wf_watch s Hwf _ _ Hw Ho) as (l' & e & Hr' & He & Hu).
      exists l', e. rewrite registry_bind. case_decide as E; [congruence|].
      split_and!; try done. by apply lookup_app_l_Some.
    + apply list_lookup_singleton_Some in Hw as [Hz <-]. cbn [target].
      rewrite registry_bind, decide_True by done.
      eexists _, _. rewrite list_lookup_middle by done.
      split_and!; try done. cbn. f_equal. lia.
  - intros l' e'. rewrite heap_set_registry. cbn [heap set_heap watches set_watches].
    intros [He|[Hle He]]%lookup_app_Some Hne.
    + destruct (wf_detached s Hwf _ _ He Hne) as [r' Hr'].
      exists r'. rewrite registry_bind. case_decide; [congruence|done].
    + apply list_lookup_singleton_Some in He as [Hz _].
      exists r. rewrite registry_bind, decide_True by done. f_equal. lia.
  - intros l' e'. rewrite heap_set_registry. cbn [heap set_heap watches set_watches].
    intros [He|[Hle He]]%lookup_app_Some.
    + by apply (wf_keys s Hwf l').
    + apply list_lookup_singleton_Some in He as [_ <-]. cbn.
      apply NoDup_singleton.
Qed.

Lemma id_or_fresh_wf callbackId s : wf s -> wf (id_or_fresh callbackId s).2.
Proof.
  destruct callbackId; [done|]. cbn. apply wf_ext; [|done..].
  intros r. apply registry_set_drawn.
Qed.

Lemma register_wf r cb callbackId overwrite s :
  wf s -> wf (register r cb callbackId overwrite s).2.
Proof.
  intros Hwf%(id_or_fresh_wf callbackId). unfold register.
  destruct (id_or_fresh callbackId s) as [cbId s0]. cbn [snd] in Hwf.
  destruct (registry r s0) as [l|] eqn:Hr.
  - destruct (overwrite || negb (func_has l cbId s0)); cbn [snd]; [|done].
    by eapply func_set_wf.
  - change (open_entry r s0) with (length (heap s0), (open_entry r s0).2).
    cbv beta iota. rewrite open_entry_has, orb_true_r. cbn [snd].
    rewrite open_entry_set. by apply first_registration_wf.
Qed.

Lemma unregister_wf r cbId s : wf s -> wf (unregister r cbId s).
Proof.
  intros Hwf. unfold unregister.
  destruct (registry r s) as [l|] eqn:Hr; [|done].
  destruct (wf_owned s Hwf _ _ Hr) as (e & h & He & Hne & Hu & Hw).
  assert (Hd : deref l (func_delete l cbId s) = with_func (JSMap.delete cbId) e).
  { apply deref_lookup. unfold func_delete. cbn [heap set_heap watches set_watches].
    by rewrite list_lookup_alter_eq, He. }
  unfold func_size. rewrite Hd. cbn [func unsubscribe with_func]. rewrite Hu.
  destruct (Nat.eqb_spec (JSMap.size (JSMap.delete cbId (func e))) 0) as [Hz|Hnz].
  - apply size_entries in Hz. unfold call_unsubscribe, func_delete. split.
    + intros r' l'. rewrite registry_unbind, heap_set_registry, watches_set_registry.
      rewrite registry_set_watches, registry_set_heap.
      cbn [heap set_heap watches set_watches].
      case_decide as E; [done|]. intros H'.
      destruct (wf_owned s Hwf _ _ H') as (e' & h' & He' & Hne' & Hu' & Hw').
      exists e', h'.
      assert (l <> l') by (intros ->; apply E; eapply wf_registry_inj; eauto).
      assert (h <> h') by (intros ->; congruence).
      by rewrite !list_lookup_alter_ne.
    + intros h0 w0. rewrite heap_set_registry, watches_set_registry.
      cbn [heap set_heap watches set_watches].
      destruct (decide (h = h0)) as [<-|Hh].
      { rewrite list_lookup_alter_eq, Hw. by intros [= <-]. }
      rewrite list_lookup_alter_ne by done. intros Hw0 Ho.
      destruct (wf_watch s Hwf _ _ Hw0 Ho) as (l0 & e0 & Hr0 & He0 & Hu0).
      assert (l <> l0) by (intros ->; congruence).
      exists l0, e0. rewrite registry_unbind, registry_set_watches, registry_set_heap.
      case_decide as E; [congruence|]. by rewrite list_lookup_alter_ne.
    + intros l0 e0. rewrite heap_set_registry. cbn [heap set_heap watches set_watches].
      destruct (decide (l = l0)) as [<-|Hl].
      { rewrite list_lookup_alter_eq, He. by intros [= <-]. }
      rewrite list_lookup_alter_ne by done. intros He0 Hne0.
      destruct (wf_detached s Hwf _ _ He0 Hne0) as [r0 Hr0].
      exists r0. rewrite registry_unbind, registry_set_watches, registry_set_heap.
      case_decide; [congruence|done].
    + intros l0 e0. rewrite heap_set_registry. cbn [heap set_heap watches set_watches].
      destruct (decide (l = l0)) as [<-|Hl].
      * rewrite list_lookup_alter_eq, He. intros [= <-].
        apply keys_delete_NoDup, (wf_keys s Hwf l e He).
      * rewrite list_lookup_alter_ne by done. apply (wf_keys s Hwf).
  - eapply update_func_wf; [done..|].
    intros e' He'. assert (e' = e) as -> by congruence. split.
    + by rewrite <- size_entries.
    + apply keys_delete_NoDup, (wf_keys s Hwf l e He).
Qed.

Lemma exec_wf o s : wf s -> wf (exec o s).1.
Proof.
  intros Hwf. destruct o; cbn [exec].
  - rewrite addCallback_register.
    pose proof (register_wf (Document (document_key collectionRef documentId))
                  callback callbackId overwrite s Hwf) as H.
    by destruct (register _ _ _ _ _).
  - rewrite removeCallback_unregister. by apply unregister_wf.
  - rewrite addCollectionCallback_register.
    pose proof (register_wf (Collection (path collectionRef))
                  callback callbackId overwrite s Hwf) as H.
    by destruct (register _ _ _ _ _).
  - rewrite removeCollectionCallback_unregister. by apply unregister_wf.
Qed.

Lemma exec_all_wf ops s : wf s -> wf (exec_all ops s).1.
Proof.
  revert s. induction ops as [|o ops IH]; intros s Hwf; [done|].
  cbn [exec_all]. pose proof (exec_wf o s Hwf) as H1.
  destruct (exec o s) as [s1 ev]. specialize (IH s1 H1).
  by destruct (exec_all ops s1).
Qed.

Lemma invoke_wf r cbId cb snap s : wf s -> wf (invoke r cbId cb snap s).1.
Proof.
  intros Hwf. unfold invoke. pose proof (exec_all_wf (body_of cb snap) s Hwf).
  by destruct (exec_all _ s).
Qed.

Lemma forEach_wf fuel m r snap index s :
  wf s -> wf (forEach fuel m r snap index s).1.2.
Proof.
  revert index s. induction fuel as [|fuel IH]; intros index s Hwf; [done|].
  cbn [forEach]. destruct (func (deref m s) !! index) as [[[cbId cb]|]|]; [| |done].
  - pose proof (invoke_wf r cbId cb snap s Hwf) as H1.
    destruct (invoke r cbId cb snap s) as [s1 es1].
    specialize (IH (S index) s1 H1).
    by destruct (forEach fuel m r snap (S index) s1) as [[fin s2] es2].
  - by apply IH.
Qed.

Lemma deliver_wf fuel h snap s : wf s -> wf (deliver fuel h snap s).1.2.
Proof.
  intros Hwf. unfold deliver, run_handler.
  destruct (watches s !! h) as [w|]; [|done].
  destruct (is_open w); [|done].
  destruct (handler w) as [key|colCallback].
  - destruct (callbacks s !! key); [|done]. by apply forEach_wf.
  - by apply forEach_wf.
Qed.

Lemma step_wf a s : wf s -> wf (step a s).1.
Proof.
  intros Hwf. destruct a as [o|fuel h snap]; cbn [step].
  - pose proof (exec_wf o s Hwf). by destruct (exec o s).
  - pose proof (deliver_wf fuel h snap s Hwf).
    by destruct (deliver fuel h snap s) as [[fin s'] es].
Qed.

Lemma run_wf acts s : wf s -> wf (run acts s).1.
Proof.
  revert s. induction acts as [|a acts IH]; intros s Hwf; [done|].
  cbn [run]. pose proof (step_wf a s Hwf) as H1.
  destruct (step a s) as [s1 es1]. specialize (IH s1 H1).
  by destruct (run acts s1).
Qed.

Lemma state_after_wf acts : wf (state_after acts).
Proof. apply run_wf, init_wf. Qed.

(** Name the state a run ends in and record that it has the shape. *)
Ltac reachable acts s Hwf :=
  intros s; pose proof (state_after_wf acts) as Hwf; fold s in Hwf.

(** ** Open watches are counted by the registries *)

Lemma filter_none {A} (P : A -> Prop) `{!forall x, Decision (P x)} (xs : list A) :
  (forall x, x ∈ xs -> ~ P x) -> filter P xs = [].
Proof.
  induction xs as [|x xs IH]; intros Hn; [done|].
  rewrite filter_cons_False by (apply Hn, list_elem_of_here).
  apply IH. intros y Hy. apply Hn. by apply list_elem_of_further.
Qed.

Lemma filter_at_most_one {A} (P : A -> Prop) `{!forall x, Decision (P x)} (xs : list A) :
  (forall i j x y, xs !! i = Some x -> xs !! j = Some y -> P x -> P y -> i = j) ->
  length (filter P xs) <= 1.
Proof.
  induction xs as [|x xs IH]; intros Huniq; [simpl; lia|].
  rewrite filter_cons. case_decide as Hx.
  - assert (filter P xs = []) as ->; [|simpl; lia].
    apply filter_none. intros y Hy Py.
    apply list_elem_of_lookup in Hy as [j Hj].
    by specialize (Huniq 0 (S j) x y eq_refl Hj Hx Py).
  - apply IH. intros i j a b Ha Hb Pa Pb.
    by specialize (Huniq (S i) (S j) a b Ha Hb Pa Pb) as [= ->].
Qed.

Lemma watching_spec r w : watching r w = true <-> is_open w = true /\ target w = r.
Proof. unfold watching. by rewrite andb_true_iff, bool_decide_eq_true. Qed.

Lemma open_handles_le s r : wf s -> open_handles r s <= 1.
Proof.
  intros Hwf. unfold open_handles. apply filter_at_most_one.
  intros i j x y Hx Hy [Ox Tx]%watching_spec [Oy Ty]%watching_spec.
  destruct (wf_watch s Hwf _ _ Hx Ox) as (l1 & e1 & Hr1 & He1 & Hu1).
  destruct (wf_watch s Hwf _ _ Hy Oy) as (l2 & e2 & Hr2 & He2 & Hu2).
  congruence.
Qed.

Lemma open_handles_bound r s l :
  wf s -> registry r s = Some l -> open_handles r s = 1.
Proof.
  intros Hwf Hr. pose proof (open_handles_le s r Hwf) as Hle.
  destruct (wf_owned s Hwf _ _ Hr) as (e & h & He & Hne & Hu & Hw).
  unfold open_handles in *.
  assert (Hin : mkWatch r (handler_for r l) true ∈
                filter (fun w => watching r w = true) (watches s)).
  { apply list_elem_of_filter. split.
    - by apply watching_spec.
    - by eapply list_elem_of_lookup_2. }
  destruct (filter _ (watches s)); [by apply elem_of_nil in Hin|simpl in *; lia].
Qed.

Lemma open_handles_free r s :
  wf s -> registry r s = None -> open_handles r s = 0.
Proof.
  intros Hwf Hr. unfold open_handles.
  assert (filter (fun w => watching r w = true) (watches s) = []) as ->; [|done].
  apply filter_none. intros w Hin [Ho Ht]%watching_spec.
  apply list_elem_of_lookup in Hin as [h Hh].
  destruct (wf_watch s Hwf _ _ Hh Ho) as (l & e & Hr' & _). congruence.
Qed.

Lemma exec_register_unregister o s :
  (exists cb callbackId overwrite,
     exec o s = ((register (op_resource o) cb callbackId overwrite s).2,
                 Registered (op_resource o)
                   (register (op_resource o) cb callbackId overwrite s).1)) \/
  (exists cbId,
     exec o s = (unregister (op_resource o) cbId s, Unregistered (op_resource o) cbId)).
Proof.
  destruct o; cbn [exec op_resource].
  - left. exists callback, callbackId, overwrite. rewrite addCallback_register.
    by destruct (register _ _ _ _ _).
  - right. by exists callbackId.
  - left. exists callback, callbackId, overwrite. rewrite addCollectionCallback_register.
    by destruct (register _ _ _ _ _).
  - right. by exists callbackId.
Qed.

(** ** What a call does to the resource it is about, and to the others *)

Lemma id_or_fresh_fields callbackId s :
  let s0 := (id_or_fresh callbackId s).2 in
  callbacks s0 = callbacks s /\ collectionCallbacks s0 = collectionCallbacks s /\
  heap s0 = heap s /\ watches s0 = watches s.
Proof. by destruct callbackId. Qed.

Lemma id_or_fresh_registry callbackId r s :
  registry r (id_or_fresh callbackId s).2 = registry r s.
Proof. by destruct callbackId, r. Qed.

Lemma register_cases r cb callbackId overwrite s :
  let cbId := (id_or_fresh callbackId s).1 in
  let s0 := (id_or_fresh callbackId s).2 in
  (register r cb callbackId overwrite s).1 = cbId /\
  (register r cb callbackId overwrite s).2 =
    match registry r s with
    | Some l => if overwrite || negb (func_has l cbId s)
                then func_set l cbId cb s0 else s0
    | None => first_registration r cbId cb s0
    end.
Proof.
  intros cbId s0. unfold register.
  rewrite (surjective_pairing (id_or_fresh callbackId s)).
  fold cbId s0.
  assert (Hreg : registry r s0 = registry r s) by apply id_or_fresh_registry.
  rewrite <- Hreg.
  assert (Hh : forall l, func_has l cbId s0 = func_has l cbId s).
  { intros l. unfold func_has, deref, s0.
    by destruct (id_or_fresh_fields callbackId s) as (_ & _ & -> & _). }
  destruct (registry r s0) as [l|].
  - rewrite Hh. by destruct (overwrite || _).
  - change (open_entry r s0) with (length (heap s0), (open_entry r s0).2).
    cbv beta iota. rewrite open_entry_has, orb_true_r. cbn [fst snd].
    by rewrite open_entry_set.
Qed.

Lemma unregister_cases r cbId s :
  unregister r cbId s =
    match registry r s with
    | Some l =>
        match heap s !! l with
        | Some e =>
            if JSMap.size (JSMap.delete cbId (func e)) =? 0
            then set_registry r (fun key => delete key)
                   (call_unsubscribe (unsubscribe e) (func_delete l cbId s))
            else func_delete l cbId s
        | None => set_registry r (fun key => delete key) s
        end
    | None => s
    end.
Proof.
  unfold unregister. destruct (registry r s) as [l|]; [|done].
  destruct (heap s !! l) as [e|] eqn:He.
  - assert (Hd : deref l (func_delete l cbId s) = with_func (JSMap.delete cbId) e).
    { apply deref_lookup. unfold func_delete. cbn [heap set_heap].
      by rewrite list_lookup_alter_eq, He. }
    unfold func_size. by rewrite Hd.
  - assert (Hs : func_delete l cbId s = s).
    { unfold func_delete. destruct s as [c cc hp ws d]. unfold set_heap. cbn in *.
      f_equal. apply list_eq. intros i. destruct (decide (l = i)) as [<-|Hn].
      - by rewrite list_lookup_alter_eq, He.
      - by rewrite list_lookup_alter_ne. }
    rewrite Hs. unfold func_size, deref.
    rewrite list_lookup_total_alt, He. done.
Qed.

(** A call about one resource leaves every other resource alone: its
    binding in the registry, its entry object and its watch. *)
Lemma register_frame r r' cb callbackId overwrite s :
  wf s -> r' <> r ->
  registry r' (register r cb callbackId overwrite s).2 = registry r' s /\
  entry_of r' (register r cb callbackId overwrite s).2 = entry_of r' s.
Proof.
  intros Hwf Hne.
  destruct (register_cases r cb callbackId overwrite s) as [_ ->].
  destruct (id_or_fresh_fields callbackId s) as (_ & _ & Hh & Hw).
  pose proof (id_or_fresh_registry callbackId r' s) as Hreg.
  set (s0 := (id_or_fresh callbackId s).2) in *.
  set (cbId := (id_or_fresh callbackId s).1) in *.
  unfold entry_of.
  destruct (registry r s) as [l|] eqn:Hr.
  - destruct (overwrite || _).
    + unfold func_set. rewrite registry_set_heap, Hreg. split; [done|].
      destruct (registry r' s) as [l'|] eqn:Hr'; [|done].
      cbn [heap set_heap]. rewrite list_lookup_alter_ne, Hh; [done|].
      intros ->. apply Hne. eapply wf_registry_inj; eauto.
    + by rewrite Hreg, Hh.
  - unfold first_registration.
    rewrite registry_bind, decide_False, registry_set_heap, registry_set_watches, Hreg
      by done.
    split; [done|]. destruct (registry r' s) as [l'|] eqn:Hr'; [|done].
    rewrite heap_set_registry. cbn [heap set_heap watches set_watches].
    destruct (wf_owned s Hwf _ _ Hr') as (e & h & He & _).
    rewrite Hh, He. by apply lookup_app_l_Some.
Qed.

Lemma unregister_frame r r' cbId s :
  wf s -> r' <> r ->
  registry r' (unregister r cbId s) = registry r' s /\
  entry_of r' (unregister r cbId s) = entry_of r' s.
Proof.
  intros Hwf Hne. rewrite unregister_cases. unfold entry_of.
  destruct (registry r s) as [l|] eqn:Hr; [|done].
  destruct (wf_owned s Hwf _ _ Hr) as (e & h & He & _). rewrite He.
  assert (Hl : forall l', registry r' s = Some l' -> l <> l').
  { intros l' Hr' ->. apply Hne. eapply wf_registry_inj; eauto. }
  destruct (_ =? 0).
  - rewrite registry_unbind, decide_False by done.
    unfold call_unsubscribe, func_delete.
    destruct (unsubscribe e);
      rewrite ?registry_set_watches, registry_set_heap; (split; [done|]);
      (destruct (registry r' s) as [l'|] eqn:Hr'; [|done]);
      rewrite heap_set_registry; cbn [heap set_heap watches set_watches];
      rewrite list_lookup_alter_ne; auto.
  - unfold func_delete. rewrite registry_set_heap. split; [done|].
    destruct (registry r' s) as [l'|] eqn:Hr'; [|done].
    cbn [heap set_heap]. rewrite list_lookup_alter_ne; auto.
Qed.

Lemma exec_frame o r s :
  wf s -> op_resource o <> r ->
  registry r (exec o s).1 = registry r s /\ entry_of r (exec o s).1 = entry_of r s.
Proof.
  intros Hwf Hne.
  destruct (exec_register_unregister o s) as [(cb & i & ov & ->)|(cbId & ->)]; cbn [fst].
  - by apply register_frame.
  - by apply unregister_frame.
Qed.

Lemma exec_all_frame ops r s :
  wf s -> Forall (fun o => op_resource o <> r) ops ->
  registry r (exec_all ops s).1 = registry r s /\
  entry_of r (exec_all ops s).1 = entry_of r s.
Proof.
  intros Hwf Hq. revert s Hwf.
  induction Hq as [|o ops Ho _ IH]; intros s Hwf; [done|].
  cbn [exec_all]. pose proof (exec_wf o s Hwf) as Hwf1.
  destruct (exec_frame o r s Hwf Ho) as [Hr1 He1].
  destruct (exec o s) as [s1 ev]. cbn [fst] in *.
  destruct (IH s1 Hwf1) as [Hr2 He2].
  destruct (exec_all ops s1) as [s2 es]. cbn [fst] in *. split; congruence.
Qed.

Lemma open_handles_registry r s s' :
  wf s -> wf s' -> registry r s' = registry r s ->
  open_handles r s' = open_handles r s.
Proof.
  intros Hwf Hwf' Hr. destruct (registry r s) as [l|] eqn:E.
  - by rewrite (open_handles_bound r s l), (open_handles_bound r s' l).
  - by rewrite (open_handles_free r s), (open_handles_free r s').
Qed.

Lemma registered_first_registration r cbId cb s :
  registered r (first_registration r cbId cb s) = [(cbId, cb)].
Proof.
  unfold registered, first_registration, deref.
  rewrite registry_bind, decide_True, heap_set_registry by done.
  cbn [heap set_heap watches set_watches].
  by rewrite list_lookup_total_middle.
Qed.

Lemma registered_entry r s l e :
  registry r s = Some l -> heap s !! l = Some e ->
  registered r s = JSMap.entries (func e).
Proof. intros Hr He. unfold registered. by rewrite Hr, (deref_lookup l s e He). Qed.

Lemma handle_open_closed h f s :
  handle_open h (set_registry f (fun key => delete key)
                   (call_unsubscribe (Some h) s)) = false.
Proof.
  unfold handle_open. rewrite watches_set_registry. cbn [call_unsubscribe watches set_watches].
  rewrite list_lookup_alter_eq. by destruct (watches s !! h).
Qed.

(** ** Delivering a snapshot *)

(** On an open watch both closures walk the entry of the watched
    resource. *)
Lemma deliver_open fuel h snap s w :
  wf s -> watches s !! h = Some w -> is_open w = true ->
  exists l, registry (target w) s = Some l /\
    deliver fuel h snap s = forEach fuel l (target w) snap 0 s.
Proof.
  intros Hwf Hw Ho.
  destruct (wf_watch s Hwf _ _ Hw Ho) as (l & e & Hr & He & Hu).
  destruct (wf_owned s Hwf _ _ Hr) as (e' & h' & He' & _ & Hu' & Hw').
  assert (h' = h) as -> by congruence.
  assert (Hh : handler w = handler_for (target w) l) by (rewrite Hw in Hw'; by injection Hw' as ->).
  exists l. split; [done|]. unfold deliver, run_handler. rewrite Hw, Ho, Hh.
  destruct (target w) as [key|key]; cbn [handler_for registry] in *; by rewrite ?Hr.
Qed.

Lemma calls_exec o s : is_call (exec o s).2 = false.
Proof.
  destruct o; cbn [exec]; try done.
  - by destruct (addCallback _ _ _ _ _ _).
  - by destruct (addCollectionCallback _ _ _ _ _).
Qed.

Lemma calls_exec_all ops s : calls (exec_all ops s).2 = [].
Proof.
  revert s. induction ops as [|o ops IH]; intros s; [done|].
  cbn [exec_all]. pose proof (calls_exec o s) as Hc.
  destruct (exec o s) as [s1 ev]. specialize (IH s1).
  destruct (exec_all ops s1) as [s2 es]. cbn [snd] in *.
  unfold calls in *. rewrite filter_cons_False; [done|]. by rewrite Hc.
Qed.

(** Observers that leave the resource alone are called one after the
    other, one call per filled slot, and the traversal ends. *)
Lemma forEach_quiet r snap l e fuel : forall index s,
  wf s -> registry r s = Some l -> heap s !! l = Some e ->
  length (func e) - index < fuel ->
  Forall (fun p => quiet r snap p.2) (JSMap.entries (drop index (func e))) ->
  exists s' es,
    forEach fuel l r snap index s = (true, s', es) /\
    calls es = call_of r snap <$> JSMap.entries (drop index (func e)) /\
    wf s' /\ registry r s' = Some l /\ heap s' !! l = Some e.
Proof.
  induction fuel as [|fuel IH]; intros index s Hwf Hr He Hlt Hq; [lia|].
  cbn [forEach]. rewrite (deref_lookup l s e He).
  destruct (func e !! index) as [[[cbId cb]|]|] eqn:Hslot.
  - rewrite (drop_S _ _ _ Hslot), entries_cons_Some in Hq |- *.
    apply Forall_cons in Hq as [Hcb Hq]. cbn [snd] in Hcb.
    unfold invoke.
    pose proof (exec_all_wf (body_of cb snap) s Hwf) as Hwf1.
    destruct (exec_all_frame (body_of cb snap) r s Hwf Hcb) as [Hr1 He1].
    pose proof (calls_exec_all (body_of cb snap) s) as Hc1.
    destruct (exec_all (body_of cb snap) s) as [s1 es1]. cbn [fst snd] in *.
    rewrite Hr in Hr1. unfold entry_of in He1. rewrite Hr1, Hr, He in He1.
    apply lookup_lt_Some in Hslot as Hlen.
    destruct (IH (S index) s1 Hwf1 Hr1 He1 ltac:(lia) Hq)
      as (s2 & es2 & -> & Hc2 & Hwf2 & Hr2 & He2).
    eexists _, _. split; [done|]. split_and!; try done.
    rewrite fmap_cons. unfold calls in *.
    rewrite filter_app, filter_cons_True, Hc1, Hc2 by done. done.
  - rewrite (drop_S _ _ _ Hslot), entries_cons_None in Hq |- *.
    apply lookup_lt_Some in Hslot as Hlen.
    apply IH; try done. lia.
  - apply lookup_ge_None in Hslot. rewrite drop_ge by done.
    exists s, []. by split_and!.
Qed.

Lemma deliver_quiet h snap s w :
  wf s -> watches s !! h = Some w -> is_open w = true ->
  Forall (fun p => quiet (target w) snap p.2) (registered (target w) s) ->
  exists fuel0, forall fuel, fuel0 <= fuel ->
    exists s' es,
      deliver fuel h snap s = (true, s', es) /\
      calls es = call_of (target w) snap <$> registered (target w) s.
Proof.
  intros Hwf Hw Ho Hq.
  destruct (wf_watch s Hwf _ _ Hw Ho) as (l & e & Hr & He & Hu).
  rewrite (registered_entry _ _ _ _ Hr He) in Hq |- *.
  exists (S (length (func e))). intros fuel Hfuel.
  destruct (deliver_open fuel h snap s w Hwf Hw Ho) as (l' & Hr' & ->).
  assert (l' = l) as -> by congruence.
  destruct (forEach_quiet (target w) snap l e fuel 0 s Hwf Hr He ltac:(lia) Hq)
    as (s' & es & Hf & Hc & _).
  by exists s', es.
Qed.

Lemma registered_NoDup r s : wf s -> NoDup (registered r s).*1.
Proof.
  intros Hwf. unfold registered. destruct (registry r s) as [l|] eqn:Hr; [|constructor].
  destruct (wf_owned s Hwf _ _ Hr) as (e & h & He & _).
  rewrite (deref_lookup l s e He). apply (wf_keys s Hwf l e He).
Qed.

(** ** The claims *)

(** C1. At-most-one-watch: after any finite sequence of register and
    unregister calls on either path (snapshot deliveries, whose observers
    make such calls themselves, included), every resource key, a key of
    the document registry or a key of the collection registry, has zero or
    one open watch at the store; [addCallback] and [addCollectionCallback]
    leave the watches as they are when the key already has an entry. *)
Theorem at_most_one_watch (acts : list Action) :
  let s := state_after acts in
  (forall r, open_handles r s <= 1) /\
  (forall collectionRef documentId cb callbackId overwrite,
     callbacks s !! document_key collectionRef documentId <> None ->
     watches (addCallback collectionRef documentId cb callbackId overwrite s).2 =
     watches s) /\
  (forall collectionRef cb callbackId overwrite,
     collectionCallbacks s !! path collectionRef <> None ->
     watches (addCollectionCallback collectionRef cb callbackId overwrite s).2 =
     watches s).
Proof.
  reachable acts s Hwf.
  assert (Hreg : forall r cb callbackId overwrite,
            registry r s <> None ->
            watches (register r cb callbackId overwrite s).2 = watches s).
  { intros r cb callbackId overwrite Hr.
    destruct (register_cases r cb callbackId overwrite s) as [_ ->].
    destruct (id_or_fresh_fields callbackId s) as (_ & _ & _ & Hw).
    destruct (registry r s) as [l|]; [|done].
    by destruct (overwrite || _). }
  split_and!.
  - intros r. by apply open_handles_le.
  - intros collectionRef documentId cb callbackId overwrite Hk.
    rewrite addCallback_register. by apply Hreg.
  - intros collectionRef cb callbackId overwrite Hk.
    rewrite addCollectionCallback_register. by apply Hreg.
Qed.

(** C2. After every public operation, every entry present in either
    registry has at least one callback and holds a handle that is open at
    the store.  A register call for a key without an entry leaves an
    entry with exactly that one callback and one open watch; an
    unregister call that removes the only callback of an entry leaves no
    entry for the key and closes its handle in that same call. *)
Theorem entries_live_and_watched (acts : list Action) :
  let s := state_after acts in
  (forall r l, registry r s = Some l ->
     exists e h, heap s !! l = Some e /\ 1 <= JSMap.size (func e) /\
       unsubscribe e = Some h /\ handle_open h s = true) /\
  (forall o s' r cbId,
     exec o s = (s', Registered r cbId) -> registry r s = None ->
     (registered r s').*1 = [cbId] /\ open_handles r s' = 1) /\
  (forall o s' r cbId l e h,
     exec o s = (s', Unregistered r cbId) ->
     registry r s = Some l -> heap s !! l = Some e -> unsubscribe e = Some h ->
     JSMap.keys (func e) = [cbId] ->
     registry r s' = None /\ open_handles r s' = 0 /\ handle_open h s' = false).
Proof.
  reachable acts s Hwf. split_and!.
  - intros r l Hr.
    destruct (wf_owned s Hwf _ _ Hr) as (e & h & He & Hne & Hu & Hw).
    exists e, h. split_and!; try done.
    + unfold JSMap.size. destruct (JSMap.entries (func e)); [done|simpl; lia].
    + unfold handle_open. by rewrite Hw.
  - intros o s' r cbId Hex Hr.
    pose proof (exec_wf o s Hwf) as Hwf'. rewrite Hex in Hwf'. cbn [fst] in Hwf'.
    destruct (exec_register_unregister o s) as [(cb & i & ov & Heq)|(? & Heq)];
      rewrite Heq in Hex; [|discriminate].
    injection Hex as <- Hr' <-. rewrite Hr' in *.
    destruct (register_cases r cb i ov s) as [-> Hs]. rewrite Hs, Hr in *.
    rewrite registered_first_registration. split; [done|].
    eapply open_handles_bound; [done|].
    unfold first_registration. by rewrite registry_bind, decide_True.
  - intros o s' r cbId l e h Hex Hr He Hu Hk.
    pose proof (exec_wf o s Hwf) as Hwf'. rewrite Hex in Hwf'. cbn [fst] in Hwf'.
    destruct (exec_register_unregister o s) as [(cb & i & ov & Heq)|(cbId' & Heq)];
      rewrite Heq in Hex; [discriminate|].
    injection Hex as <- Hr' ->. rewrite Hr' in *.
    rewrite unregister_cases, Hr, He, Hu in *.
    assert (JSMap.size (JSMap.delete cbId (func e)) = 0) as Hz.
    { apply size_entries. rewrite entries_delete. unfold JSMap.keys in Hk.
      destruct (JSMap.entries (func e)) as [|[k v] [|? ?]]; try done.
      injection Hk as ->. by rewrite filter_cons_False by (by intros ?). }
    rewrite Hz in *. cbn [Nat.eqb] in *.
    assert (Hnone : registry r
              (set_registry r (fun key => delete key)
                 (call_unsubscribe (Some h) (func_delete l cbId s))) = None).
    { by rewrite registry_unbind, decide_True. }
    split_and!; [done| |apply handle_open_closed].
    by apply open_handles_free.
Qed.

(** C3, amended. A snapshot delivered on the open watch of a resource
    calls every callback registered for that resource exactly once, in
    the insertion order of the entry's map, and calls nothing else,
    provided no callback registered for that resource makes a register or
    unregister call about the same resource while the snapshot is being
    dispatched.  The ids are distinct, so "once" is once per
    registration, and the dispatch ends for every fuel from some bound
    on. *)
Theorem fan_out_quiet (acts : list Action) (h : Handle) (snap : Snapshot) (w : Watch) :
  let s := state_after acts in
  watches s !! h = Some w -> is_open w = true ->
  Forall (fun p => quiet (target w) snap p.2) (registered (target w) s) ->
  NoDup (registered (target w) s).*1 /\
  fans_out_to_all h snap s /\
  exists fuel0, forall fuel, fuel0 <= fuel ->
    exists s' es,
      deliver fuel h snap s = (true, s', es) /\
      calls es = call_of (target w) snap <$> registered (target w) s.
Proof.
  reachable acts s Hwf. intros Hw Ho Hq.
  pose proof (deliver_quiet h snap s w Hwf Hw Ho Hq) as (fuel0 & Hd).
  split_and!.
  - by apply registered_NoDup.
  - destruct (Hd fuel0 (le_n _)) as (s' & es & Hrun & Hc).
    by exists w, fuel0, s', es.
  - by exists fuel0.
Qed.

Lemma callback_at_entry r cbId s cb :
  callback_at r cbId s = Some cb ->
  exists l e, registry r s = Some l /\ heap s !! l = Some e /\
    JSMap.get cbId (func e) = Some cb.
Proof.
  unfold callback_at, deref. destruct (registry r s) as [l|]; [|done].
  rewrite list_lookup_total_alt. destruct (heap s !! l) as [e|] eqn:He; [|done].
  intros H. by exists l, e.
Qed.

Lemma register_collision r old new cbId s :
  callback_at r cbId s = Some old ->
  (register r new (Some cbId) true s).1 = cbId /\
  callback_at r cbId (register r new (Some cbId) true s).2 = Some new /\
  register r new (Some cbId) false s = (cbId, s).
Proof.
  intros (l & e & Hr & He & Hg)%callback_at_entry.
  assert (Hhas : func_has l cbId s = true).
  { unfold func_has. rewrite (deref_lookup l s e He). apply get_has. eauto. }
  split_and!.
  - by destruct (register_cases r new (Some cbId) true s) as [-> _].
  - destruct (register_cases r new (Some cbId) true s) as [_ ->].
    rewrite Hr. cbn [orb id_or_fresh fst snd].
    unfold callback_at, func_set. rewrite registry_set_heap, Hr.
    erewrite deref_lookup; [|cbn [heap set_heap]; by rewrite list_lookup_alter_eq, He].
    apply get_set.
  - unfold register. cbn [id_or_fresh]. by rewrite Hr, Hhas.
Qed.

(** C4. A register call with a caller-supplied id that is already bound
    in the entry of the key: with [overwrite = true] the id is bound to
    the new callback afterwards; with [overwrite = false] the call returns
    the id and the state is the one before the call, old callback
    included.  On both paths. *)
Theorem collision_policy (s : State) (collectionRef : CollectionReference)
    (documentId cbId : string) (old new : Callback) :
  (callback_at (Document (document_key collectionRef documentId)) cbId s = Some old ->
     (addCallback collectionRef documentId new (Some cbId) true s).1 = cbId /\
     callback_at (Document (document_key collectionRef documentId)) cbId
       (addCallback collectionRef documentId new (Some cbId) true s).2 = Some new /\
     addCallback collectionRef documentId new (Some cbId) false s = (cbId, s)) /\
  (callback_at (Collection (path collectionRef)) cbId s = Some old ->
     (addCollectionCallback collectionRef new (Some cbId) true s).1 = cbId /\
     callback_at (Collection (path collectionRef)) cbId
       (addCollectionCallback collectionRef new (Some cbId) true s).2 = Some new /\
     addCollectionCallback collectionRef new (Some cbId) false s = (cbId, s)).
Proof.
  split; intros H.
  - rewrite !addCallback_register. by eapply register_collision.
  - rewrite !addCollectionCallback_register. by eapply register_collision.
Qed.

Lemma func_delete_absent l cbId s e :
  heap s !! l = Some e -> JSMap.has cbId (func e) = false ->
  func_delete l cbId s = s.
Proof.
  intros He Hh. unfold func_delete, set_heap. destruct s as [c cc hp ws d]. cbn in *.
  f_equal. apply list_eq. intros i. destruct (decide (l = i)) as [<-|Hn].
  - rewrite list_lookup_alter_eq, He. cbn. unfold with_func.
    rewrite delete_absent by done. by destruct e.
  - by rewrite list_lookup_alter_ne.
Qed.

Lemma unregister_absent r cbId s :
  wf s -> callback_at r cbId s = None -> unregister r cbId s = s.
Proof.
  intros Hwf Hc. rewrite unregister_cases. unfold callback_at in Hc.
  destruct (registry r s) as [l|] eqn:Hr; [|done].
  destruct (wf_owned s Hwf _ _ Hr) as (e & h & He & Hne & _).
  rewrite (deref_lookup l s e He) in Hc. apply get_None_has in Hc.
  rewrite He, delete_absent by done.
  destruct (Nat.eqb_spec (JSMap.size (func e)) 0) as [Hz|_].
  - by apply size_entries in Hz.
  - by eapply func_delete_absent.
Qed.

(** C5. An unregister call whose id is not bound in the entry of the
    key, or whose key has no entry, returns the state it was given: both
    registries, every entry and every watch are as before.  The methods
    are total functions of the state: there is no failing case.  On both
    paths, in every state the class can reach. *)
Theorem no_op_removal (acts : list Action) (collectionRef : CollectionReference)
    (documentId cbId : string) :
  let s := state_after acts in
  (callback_at (Document (document_key collectionRef documentId)) cbId s = None ->
     removeCallback collectionRef documentId cbId s = s) /\
  (callback_at (Collection (path collectionRef)) cbId s = None ->
     removeCollectionCallback collectionRef cbId s = s).
Proof.
  reachable acts s Hwf.
  split; intros H.
  - rewrite removeCallback_unregister. by apply unregister_absent.
  - rewrite removeCollectionCallback_unregister. by apply unregister_absent.
Qed.

Lemma exec_side o s s1 :
  wf s -> s1 = (exec o s).1 ->
  match op_resource o with
  | Document _ => collection_side_unchanged s s1
  | Collection _ => document_side_unchanged s s1
  end.
Proof.
  intros Hwf ->. pose proof (exec_wf o s Hwf) as Hwf'.
  destruct (op_resource o) as [k|k] eqn:Ho.
  - assert (Hf : forall key, registry (Collection key) (exec o s).1 = registry (Collection key) s /\
                  entry_of (Collection key) (exec o s).1 = entry_of (Collection key) s).
    { intros key. apply exec_frame; [done|]. by rewrite Ho. }
    split.
    + apply map_eq. intros key. apply (Hf key).
    + intros key. split; [apply Hf|]. apply open_handles_registry; try done. apply Hf.
  - assert (Hf : forall key, registry (Document key) (exec o s).1 = registry (Document key) s /\
                  entry_of (Document key) (exec o s).1 = entry_of (Document key) s).
    { intros key. apply exec_frame; [done|]. by rewrite Ho. }
    split.
    + apply map_eq. intros key. apply (Hf key).
    + intros key. split; [apply Hf|]. apply open_handles_registry; try done. apply Hf.
Qed.

(** C6. Key isolation: a register or unregister call on the document
    path leaves the collection registry, every collection entry and every
    collection watch as they were, and a call on the collection path
    leaves the document side as it was, whatever the key strings are,
    equal ones included. *)
Theorem key_isolation (acts : list Action) :
  let s := state_after acts in
  (forall collectionRef documentId cb callbackId overwrite,
     collection_side_unchanged s
       (addCallback collectionRef documentId cb callbackId overwrite s).2) /\
  (forall collectionRef documentId cbId,
     collection_side_unchanged s (removeCallback collectionRef documentId cbId s)) /\
  (forall collectionRef cb callbackId overwrite,
     document_side_unchanged s
       (addCollectionCallback collectionRef cb callbackId overwrite s).2) /\
  (forall collectionRef cbId,
     document_side_unchanged s (removeCollectionCallback collectionRef cbId s)).
Proof.
  reachable acts s Hwf. split_and!.
  - intros collectionRef documentId cb callbackId overwrite.
    apply (exec_side (OpAddCallback collectionRef documentId cb callbackId overwrite) s);
      [done|]. cbn [exec]. by destruct (addCallback _ _ _ _ _ _).
  - intros collectionRef documentId cbId.
    by apply (exec_side (OpRemoveCallback collectionRef documentId cbId) s).
  - intros collectionRef cb callbackId overwrite.
    apply (exec_side (OpAddCollectionCallback collectionRef cb callbackId overwrite) s);
      [done|]. cbn [exec]. by destruct (addCollectionCallback _ _ _ _ _).
  - intros collectionRef cbId.
    by apply (exec_side (OpRemoveCollectionCallback collectionRef cbId) s).
Qed.

Lemma register_overwrite_position r old new cbId s :
  callback_at r cbId s = Some old ->
  exists pre post,
    registered r s = pre ++ (cbId, old) :: post /\
    registered r (register r new (Some cbId) true s).2 = pre ++ (cbId, new) :: post /\
    cbId ∉ pre.*1.
Proof.
  intros (l & e & Hr & He & Hg)%callback_at_entry.
  destruct (entries_set_get cbId new old (func e) Hg) as (pre & post & E1 & E2 & Hn).
  exists pre, post. rewrite (registered_entry r s l e Hr He). split_and!; try done.
  destruct (register_cases r new (Some cbId) true s) as [_ ->].
  rewrite Hr. cbn [orb id_or_fresh fst snd]. unfold func_set.
  erewrite registered_entry;
    [|by rewrite registry_set_heap
     |cbn [heap set_heap]; by rewrite list_lookup_alter_eq, He].
  done.
Qed.

Lemma register_overwrite_dispatch r old new cbId s :
  wf s -> callback_at r cbId s = Some old ->
  exists pre post,
    registered r s = pre ++ (cbId, old) :: post /\
    registered r (register r new (Some cbId) true s).2 = pre ++ (cbId, new) :: post /\
    forall h snap w,
      watches (register r new (Some cbId) true s).2 !! h = Some w ->
      is_open w = true -> target w = r ->
      Forall (fun p => quiet r snap p.2) (pre ++ (cbId, new) :: post) ->
      exists fuel0, forall fuel, fuel0 <= fuel ->
        exists s' es,
          deliver fuel h snap (register r new (Some cbId) true s).2 = (true, s', es) /\
          calls es = call_of r snap <$> (pre ++ (cbId, new) :: post).
Proof.
  intros Hwf Hc.
  destruct (register_overwrite_position r old new cbId s Hc) as (pre & post & E1 & E2 & _).
  exists pre, post. split_and!; try done.
  intros h snap w Hw Ho <- Hq. rewrite <- E2 in Hq |- *.
  apply deliver_quiet; try done. by apply register_wf.
Qed.

(** C9. Registering with [overwrite = true] under an id that is already
    bound replaces the callback in place: the registrations before and
    after the id keep their places and the id keeps its own, so the next
    snapshot reaches the replacement where the old callback stood, not at
    the end.  On both paths. *)
Theorem overwrite_keeps_position (acts : list Action)
    (collectionRef : CollectionReference) (documentId cbId : string)
    (old new : Callback) :
  let s := state_after acts in
  (let r := Document (document_key collectionRef documentId) in
   let s1 := (addCallback collectionRef documentId new (Some cbId) true s).2 in
   callback_at r cbId s = Some old ->
   exists pre post,
     registered r s = pre ++ (cbId, old) :: post /\
     registered r s1 = pre ++ (cbId, new) :: post /\
     forall h snap w,
       watches s1 !! h = Some w -> is_open w = true -> target w = r ->
       Forall (fun p => quiet r snap p.2) (pre ++ (cbId, new) :: post) ->
       exists fuel0, forall fuel, fuel0 <= fuel ->
         exists s' es,
           deliver fuel h snap s1 = (true, s', es) /\
           calls es = call_of r snap <$> (pre ++ (cbId, new) :: post)) /\
  (let r := Collection (path collectionRef) in
   let s1 := (addCollectionCallback collectionRef new (Some cbId) true s).2 in
   callback_at r cbId s = Some old ->
   exists pre post,
     registered r s = pre ++ (cbId, old) :: post /\
     registered r s1 = pre ++ (cbId, new) :: post /\
     forall h snap w,
       watches s1 !! h = Some w -> is_open w = true -> target w = r ->
       Forall (fun p => quiet r snap p.2) (pre ++ (cbId, new) :: post) ->
       exists fuel0, forall fuel, fuel0 <= fuel ->
         exists s' es,
           deliver fuel h snap s1 = (true, s', es) /\
           calls es = call_of r snap <$> (pre ++ (cbId, new) :: post)).
Proof.
  reachable acts s Hwf.
  split; intros r s1 Hc; subst s1.
  - rewrite addCallback_register. by apply register_overwrite_dispatch.
  - rewrite addCollectionCallback_register. by apply register_overwrite_dispatch.
Qed.

Lemma unregister_twice r cbId s :
  unregister r cbId (unregister r cbId s) = unregister r cbId s.
Proof.
  rewrite (unregister_cases r cbId s).
  destruct (registry r s) as [l|] eqn:Hr; [|by rewrite unregister_cases, Hr].
  assert (Hgone : forall s0, unregister r cbId (set_registry r (fun key => delete key) s0) =
                               set_registry r (fun key => delete key) s0).
  { intros s0. by rewrite unregister_cases, registry_unbind, decide_True. }
  destruct (heap s !! l) as [e|] eqn:He; [|apply Hgone].
  destruct (Nat.eqb_spec (JSMap.size (JSMap.delete cbId (func e))) 0) as [Hz|Hnz];
    [apply Hgone|].
  assert (He' : heap (func_delete l cbId s) !! l = Some (with_func (JSMap.delete cbId) e)).
  { unfold func_delete. cbn [heap set_heap]. by rewrite list_lookup_alter_eq, He. }
  rewrite unregister_cases. unfold func_delete at 1. rewrite registry_set_heap, Hr, He'.
  cbn [func with_func]. rewrite delete_delete.
  destruct (Nat.eqb_spec (JSMap.size (JSMap.delete cbId (func e))) 0) as [Hz|_]; [done|].
  eapply func_delete_absent; [done|]. apply has_delete.
Qed.

(** C10. Unregistering is idempotent: in every state, a second
    [removeCallback] (respectively [removeCollectionCallback]) with the
    same arguments returns the state the first one returned. *)
Theorem unregister_idempotent (s : State) (collectionRef : CollectionReference)
    (documentId cbId : string) :
  removeCallback collectionRef documentId cbId
    (removeCallback collectionRef documentId cbId s) =
  removeCallback collectionRef documentId cbId s /\
  removeCollectionCallback collectionRef cbId
    (removeCollectionCallback collectionRef cbId s) =
  removeCollectionCallback collectionRef cbId s.
Proof.
  rewrite !removeCallback_unregister, !removeCollectionCallback_unregister.
  split; apply unregister_twice.
Qed.

Lemma registered_unregister r cbId s :
  registered r (unregister r cbId s) = filter (fun p => p.1 <> cbId) (registered r s).
Proof.
  rewrite unregister_cases. unfold registered at 2.
  destruct (registry r s) as [l|] eqn:Hr; [|by unfold registered; rewrite Hr].
  assert (Hgone : forall s0, registered r (set_registry r (fun key => delete key) s0) = []).
  { intros s0. unfold registered. by rewrite registry_unbind, decide_True. }
  unfold deref. rewrite list_lookup_total_alt.
  destruct (heap s !! l) as [e|] eqn:He; [|by rewrite Hgone].
  cbn [default]. rewrite <- entries_delete.
  destruct (Nat.eqb_spec (JSMap.size (JSMap.delete cbId (func e))) 0) as [Hz|Hnz].
  - rewrite Hgone. symmetry. by apply size_entries.
  - unfold func_delete. erewrite registered_entry;
      [|by rewrite registry_set_heap
       |cbn [heap set_heap]; by rewrite list_lookup_alter_eq, He].
    done.
Qed.

Lemma register_used_id r cb callbackId overwrite s :
  (register r cb callbackId overwrite s).1 = used_id callbackId s.
Proof.
  destruct (register_cases r cb callbackId overwrite s) as [-> _].
  by destruct callbackId.
Qed.

Lemma register_binds r cb callbackId overwrite s :
  wf s ->
  overwrite = true \/ callback_at r (used_id callbackId s) s = None ->
  callback_at r (used_id callbackId s) (register r cb callbackId overwrite s).2 = Some cb.
Proof.
  intros Hwf Hcond.
  destruct (register_cases r cb callbackId overwrite s) as [_ ->].
  destruct (id_or_fresh_fields callbackId s) as (_ & _ & Hh & _).
  pose proof (id_or_fresh_registry callbackId r s) as Hreg.
  assert (Hid : (id_or_fresh callbackId s).1 = used_id callbackId s) by by destruct callbackId.
  rewrite Hid. set (cbId := used_id callbackId s) in *.
  set (s0 := (id_or_fresh callbackId s).2) in *.
  unfold callback_at in *.
  destruct (registry r s) as [l|] eqn:Hr.
  - destruct (wf_owned s Hwf _ _ Hr) as (e & h & He & _).
    assert (Hov : overwrite || negb (func_has l cbId s) = true).
    { destruct Hcond as [->|Hc]; [done|].
      rewrite (deref_lookup l s e He) in Hc. apply get_None_has in Hc.
      unfold func_has. rewrite (deref_lookup l s e He), Hc. apply orb_true_r. }
    rewrite Hov. unfold func_set. rewrite registry_set_heap, Hreg.
    erewrite deref_lookup; [|cbn [heap set_heap]; by rewrite list_lookup_alter_eq, Hh, He].
    apply get_set.
  - unfold first_registration, deref.
    rewrite registry_bind, decide_True, heap_set_registry by done.
    cbn [heap set_heap watches set_watches]. rewrite list_lookup_total_middle by done.
    cbn. by rewrite bool_decide_eq_true_2.
Qed.

Lemma register_keeps r cb callbackId old s :
  callback_at r (used_id callbackId s) s = Some old ->
  callback_at r (used_id callbackId s) (register r cb callbackId false s).2 = Some old.
Proof.
  intros Hc. destruct (callback_at_entry _ _ _ _ Hc) as (l & e & Hr & He & Hg).
  destruct (register_cases r cb callbackId false s) as [_ ->].
  assert (Hid : (id_or_fresh callbackId s).1 = used_id callbackId s) by by destruct callbackId.
  rewrite Hid, Hr. unfold func_has. rewrite (deref_lookup l s e He).
  assert (JSMap.has (used_id callbackId s) (func e) = true) as -> by (apply get_has; eauto).
  cbn [orb negb]. unfold callback_at, deref in *.
  destruct (id_or_fresh_fields callbackId s) as (_ & _ & -> & _).
  by rewrite id_or_fresh_registry.
Qed.

(** C7, amended. Every register call returns the id it used, the
    caller's when one is given and the generated one otherwise, and an
    unregister call for the same resource with that id removes the
    registration bound to the id and no other.  That registration is the
    one the register call made whenever the call stored its callback,
    which it does when [overwrite] is true or the id was not yet bound;
    when the id was bound and [overwrite] is false it is the earlier
    registration, which the register call left in place.  On both
    paths. *)
Theorem returned_id_unregisters (acts : list Action)
    (collectionRef : CollectionReference) (documentId : string)
    (cb : Callback) (callbackId : option string) (overwrite : bool) :
  let s := state_after acts in
  (let r := Document (document_key collectionRef documentId) in
   let res := addCallback collectionRef documentId cb callbackId overwrite s in
   res.1 = used_id callbackId s /\
   registered r (removeCallback collectionRef documentId res.1 res.2) =
     filter (fun p => p.1 <> res.1) (registered r res.2) /\
   (overwrite = true \/ callback_at r res.1 s = None ->
    callback_at r res.1 res.2 = Some cb /\
    unregister_removes_own collectionRef documentId cb callbackId overwrite s) /\
   (forall old, overwrite = false -> callback_at r res.1 s = Some old ->
    callback_at r res.1 res.2 = Some old)) /\
  (let r := Collection (path collectionRef) in
   let res := addCollectionCallback collectionRef cb callbackId overwrite s in
   res.1 = used_id callbackId s /\
   registered r (removeCollectionCallback collectionRef res.1 res.2) =
     filter (fun p => p.1 <> res.1) (registered r res.2) /\
   (overwrite = true \/ callback_at r res.1 s = None ->
    callback_at r res.1 res.2 = Some cb) /\
   (forall old, overwrite = false -> callback_at r res.1 s = Some old ->
    callback_at r res.1 res.2 = Some old)).
Proof.
  reachable acts s Hwf.
  split; intros r res; subst res.
  - unfold unregister_removes_own.
    rewrite (surjective_pairing (addCallback _ _ _ _ _ _)).
    rewrite addCallback_register, !removeCallback_unregister. fold r.
    rewrite register_used_id.
    pose proof (registered_unregister r (used_id callbackId s)
                  (register r cb callbackId overwrite s).2) as Hrem.
    split_and!; try done.
    + intros Hcond. pose proof (register_binds r cb callbackId overwrite s Hwf Hcond).
      by split_and!.
    + intros old ->. apply register_keeps.
  - rewrite addCollectionCallback_register, removeCollectionCallback_unregister. fold r.
    rewrite register_used_id. split_and!.
    + done.
    + apply registered_unregister.
    + by apply register_binds.
    + intros old ->. apply register_keeps.
Qed.

(** ** Traces *)

Lemma stale_snoc r cbId tr ev :
  stale r cbId (tr ++ [ev]) = stale_step r cbId (stale r cbId tr) ev.
Proof. unfold stale. by rewrite foldl_app. Qed.

Lemma registers_spec r cbId ev : registers r cbId ev = true <-> ev = Registered r cbId.
Proof.
  destruct ev; cbn; try (split; [discriminate|congruence]).
  rewrite bool_decide_eq_true. split; [by intros [-> ->]|by intros [= -> ->]].
Qed.

Lemma unregisters_spec r cbId ev : unregisters r cbId ev = true <-> ev = Unregistered r cbId.
Proof.
  destruct ev; cbn; try (split; [discriminate|congruence]).
  rewrite bool_decide_eq_true. split; [by intros [-> ->]|by intros [= -> ->]].
Qed.

Lemma stale_false_registered r cbId tr i :
  stale r cbId tr = false -> tr !! i = Some (Unregistered r cbId) ->
  exists k, i < k < length tr /\ tr !! k = Some (Registered r cbId).
Proof.
  revert i. induction tr as [|ev tr IH] using rev_ind; intros i Hs Hi; [done|].
  rewrite stale_snoc in Hs. unfold stale_step in Hs. rewrite length_app. cbn [length].
  destruct (unregisters r cbId ev) eqn:Hu; [done|].
  assert (Hlt : i < length tr).
  { apply lookup_lt_Some in Hi as Hlen. rewrite length_app in Hlen. cbn in Hlen.
    destruct (decide (i = length tr)) as [->|]; [|lia].
    rewrite list_lookup_middle in Hi by done. injection Hi as ->.
    assert (unregisters r cbId (Unregistered r cbId) = true) by by apply unregisters_spec.
    congruence. }
  rewrite lookup_app_l in Hi by done.
  destruct (registers r cbId ev) eqn:Hr.
  - apply registers_spec in Hr as ->. exists (length tr).
    split; [lia|]. by rewrite list_lookup_middle.
  - destruct (IH i Hs Hi) as (k & Hk & Hreg). exists k. split; [lia|].
    rewrite lookup_app_l by lia. done.
Qed.

Lemma no_stale_nil : no_stale_call [].
Proof. intros i j r cbId cb snap _ H. by rewrite lookup_nil in H. Qed.

Lemma no_stale_snoc tr ev :
  no_stale_call tr ->
  (forall r cbId cb snap, ev = Called r cbId cb snap -> stale r cbId tr = false) ->
  no_stale_call (tr ++ [ev]).
Proof.
  intros Hok Hev i j r cbId cb snap Hij Hi Hj.
  apply lookup_lt_Some in Hj as Hlen. rewrite length_app in Hlen. cbn in Hlen.
  rewrite lookup_app_l in Hi by lia.
  destruct (decide (j = length tr)) as [->|Hne].
  - rewrite list_lookup_middle in Hj by done. injection Hj as ->.
    destruct (stale_false_registered r cbId tr i (Hev _ _ _ _ eq_refl) Hi)
      as (k & Hk & Hreg).
    exists k. split; [lia|]. by rewrite lookup_app_l by lia.
  - rewrite lookup_app_l in Hj by lia.
    destruct (Hok i j r cbId cb snap Hij Hi Hj) as (k & Hk & Hreg).
    exists k. split; [done|]. by rewrite lookup_app_l by lia.
Qed.

(** ** Bindings after a call *)

Lemma callback_at_entry_of r cbId s :
  callback_at r cbId s =
  match entry_of r s with
  | Some e => JSMap.get cbId (func e)
  | None => None
  end.
Proof.
  unfold callback_at, entry_of, deref. destruct (registry r s) as [l|]; [|done].
  rewrite list_lookup_total_alt. by destruct (heap s !! l).
Qed.

Lemma unregister_unbinds r cbId s : wf s -> callback_at r cbId (unregister r cbId s) = None.
Proof.
  intros Hwf. rewrite unregister_cases.
  destruct (registry r s) as [l|] eqn:Hr; [|by unfold callback_at; rewrite Hr].
  destruct (wf_owned s Hwf _ _ Hr) as (e & h & He & _). rewrite He.
  destruct (_ =? 0).
  - unfold callback_at. by rewrite registry_unbind, decide_True.
  - unfold callback_at, func_delete. rewrite registry_set_heap, Hr.
    erewrite deref_lookup; [|cbn [heap set_heap]; by rewrite list_lookup_alter_eq, He].
    apply get_delete.
Qed.

Lemma unregister_never_binds r r0 cbId cbId0 s :
  wf s -> callback_at r cbId s = None -> callback_at r cbId (unregister r0 cbId0 s) = None.
Proof.
  intros Hwf Hc. destruct (decide (r = r0)) as [->|Hne].
  - destruct (decide (cbId = cbId0)) as [->|Hid]; [by apply unregister_unbinds|].
    rewrite unregister_cases. unfold callback_at in Hc.
    destruct (registry r0 s) as [l|] eqn:Hr; [|by unfold callback_at; rewrite Hr].
    destruct (wf_owned s Hwf _ _ Hr) as (e & h & He & _).
    rewrite He. rewrite (deref_lookup l s e He) in Hc.
    destruct (_ =? 0).
    + unfold callback_at. by rewrite registry_unbind, decide_True.
    + unfold callback_at, func_delete. rewrite registry_set_heap, Hr.
      erewrite deref_lookup; [|cbn [heap set_heap]; by rewrite list_lookup_alter_eq, He].
      cbn [func with_func]. by rewrite get_delete_ne.
  - rewrite callback_at_entry_of in Hc |- *.
    by destruct (unregister_frame r0 r cbId0 s Hwf Hne) as [_ ->].
Qed.

Lemma register_binds_only r r0 cbId cb callbackId overwrite s :
  wf s -> callback_at r cbId s = None ->
  (r, cbId) <> (r0, (register r0 cb callbackId overwrite s).1) ->
  callback_at r cbId (register r0 cb callbackId overwrite s).2 = None.
Proof.
  intros Hwf Hc Hne. destruct (decide (r = r0)) as [->|Hr0].
  - destruct (register_cases r0 cb callbackId overwrite s) as [Hid Hs].
    rewrite Hid in Hne. rewrite Hs. clear Hid Hs.
    destruct (id_or_fresh_fields callbackId s) as (_ & _ & Hh & _).
    pose proof (id_or_fresh_registry callbackId r0 s) as Hreg.
    set (cbId0 := (id_or_fresh callbackId s).1) in *.
    set (s0 := (id_or_fresh callbackId s).2) in *.
    assert (cbId0 <> cbId) by congruence.
    unfold callback_at in *.
    destruct (registry r0 s) as [l|] eqn:Hr.
    + destruct (wf_owned s Hwf _ _ Hr) as (e & h & He & _).
      rewrite (deref_lookup l s e He) in Hc.
      destruct (overwrite || _).
      * unfold func_set. rewrite registry_set_heap, Hreg.
        erewrite deref_lookup;
          [|cbn [heap set_heap]; by rewrite list_lookup_alter_eq, Hh, He].
        cbn [func with_func]. by rewrite get_set_ne.
      * rewrite Hreg. unfold deref. by rewrite Hh, (list_lookup_total_correct _ _ _ He).
    + unfold first_registration, deref.
      rewrite registry_bind, decide_True, heap_set_registry by done.
      cbn [heap set_heap watches set_watches]. rewrite list_lookup_total_middle by done.
      cbn. by rewrite bool_decide_eq_false_2.
  - rewrite callback_at_entry_of in Hc |- *.
    by destruct (register_frame r0 r cb callbackId overwrite s Hwf Hr0) as [_ ->].
Qed.

(** ** The run keeps its state and its trace in step *)

Lemma run_inv_nil : run_inv init [].
Proof. split_and!; [apply init_wf|apply no_stale_nil|done]. Qed.

Lemma exec_inv o s tr : run_inv s tr -> run_inv (exec o s).1 (tr ++ [(exec o s).2]).
Proof.
  intros (Hwf & Hok & Hst). split_and!.
  - by apply exec_wf.
  - apply no_stale_snoc; [done|]. intros r cbId cb snap Hev.
    pose proof (calls_exec o s) as Hc. by rewrite Hev in Hc.
  - intros r cbId. rewrite stale_snoc. unfold stale_step.
    destruct (exec_register_unregister o s) as [(cb & i & ov & ->)|(cbId0 & ->)];
      cbn [fst snd unregisters registers].
    + case_bool_decide as Hreg; [done|]. intros Hs.
      apply register_binds_only; [done|by apply Hst|].
      intros [= -> ->]. by apply Hreg.
    + case_bool_decide as Hun.
      * destruct Hun as [<- <-]. intros _. by apply unregister_unbinds.
      * intros Hs. apply unregister_never_binds; [done|by apply Hst].
Qed.

Lemma exec_all_inv ops s tr :
  run_inv s tr -> run_inv (exec_all ops s).1 (tr ++ (exec_all ops s).2).
Proof.
  revert s tr. induction ops as [|o ops IH]; intros s tr Hinv.
  - cbn. by rewrite app_nil_r.
  - cbn [exec_all]. pose proof (exec_inv o s tr Hinv) as H1.
    destruct (exec o s) as [s1 ev]. cbn [fst snd] in H1.
    specialize (IH s1 (tr ++ [ev]) H1).
    destruct (exec_all ops s1) as [s2 es]. cbn [fst snd] in *.
    by rewrite <- app_assoc in IH.
Qed.

Lemma invoke_inv r cbId cb snap s tr :
  run_inv s tr -> callback_at r cbId s <> None ->
  run_inv (invoke r cbId cb snap s).1 (tr ++ (invoke r cbId cb snap s).2).
Proof.
  intros (Hwf & Hok & Hst) Hc. unfold invoke.
  assert (H1 : run_inv s (tr ++ [Called r cbId cb snap])).
  { split_and!; [done| |].
    - apply no_stale_snoc; [done|]. intros r' cbId' cb' snap' [= <- <- <- <-].
      destruct (stale r cbId tr) eqn:E; [|done]. by apply Hst in E.
    - intros r' cbId'. rewrite stale_snoc. apply Hst. }
  pose proof (exec_all_inv (body_of cb snap) s _ H1) as H2.
  destruct (exec_all (body_of cb snap) s) as [s1 es]. cbn [fst snd] in *.
  by rewrite <- app_assoc in H2.
Qed.

Lemma exec_walked o m r s : walked m r s -> walked m r (exec o s).1.
Proof.
  intros [Hlt Hown].
  assert (Hreg : forall cb i ov, walked m r (register (op_resource o) cb i ov s).2).
  { intros cb i ov.
    destruct (register_cases (op_resource o) cb i ov s) as [_ ->].
    destruct (id_or_fresh_fields i s) as (_ & _ & Hh & _).
    pose proof (id_or_fresh_registry i) as Hr0.
    destruct (registry (op_resource o) s) as [l|].
    - destruct (_ || _); split.
      + unfold func_set. cbn [heap set_heap]. by rewrite length_alter, Hh.
      + intros r'. unfold func_set. rewrite registry_set_heap, Hr0. apply Hown.
      + by rewrite Hh.
      + intros r'. rewrite Hr0. apply Hown.
    - unfold first_registration. split.
      + rewrite heap_set_registry. cbn [heap set_heap watches set_watches].
        rewrite length_app, Hh. lia.
      + intros r'. rewrite registry_bind, registry_set_heap, registry_set_watches, Hr0.
        case_decide; [|apply Hown]. rewrite Hh. intros [= <-]. lia. }
  assert (Hun : forall cbId, walked m r (unregister (op_resource o) cbId s)).
  { intros cbId. rewrite unregister_cases.
    destruct (registry (op_resource o) s) as [l|]; [|done].
    assert (Hd : walked m r (func_delete l cbId s)).
    { split.
      - unfold func_delete. cbn [heap set_heap]. by rewrite length_alter.
      - intros r'. unfold func_delete. rewrite registry_set_heap. apply Hown. }
    assert (Hunb : forall s0, walked m r s0 ->
              walked m r (set_registry (op_resource o) (fun key => delete key) s0)).
    { intros s0 [Hlt0 Hown0]. split.
      - by rewrite heap_set_registry.
      - intros r'. rewrite registry_unbind. case_decide; [done|apply Hown0]. }
    destruct (heap s !! l) as [e|]; [|by apply Hunb].
    destruct (_ =? 0); [|done]. apply Hunb.
    destruct (unsubscribe e); [|done]. destruct Hd as [Hlt1 Hown1]. split; [done|].
    intros r'. cbn [call_unsubscribe]. rewrite registry_set_watches. apply Hown1. }
  destruct (exec_register_unregister o s) as [(cb & i & ov & ->)|(cbId & ->)]; cbn [fst];
    [apply Hreg|apply Hun].
Qed.

Lemma exec_all_walked ops m r s : walked m r s -> walked m r (exec_all ops s).1.
Proof.
  revert s. induction ops as [|o ops IH]; intros s Hw; [done|].
  cbn [exec_all]. pose proof (exec_walked o m r s Hw) as H1.
  destruct (exec o s) as [s1 ev]. specialize (IH s1 H1).
  by destruct (exec_all ops s1).
Qed.

Lemma slot_has {V} (m : JSMap.t V) i k v :
  m !! i = Some (Some (k, v)) -> JSMap.has k m = true.
Proof.
  intros H. apply has_keys. unfold JSMap.keys.
  apply list_elem_of_fmap. exists (k, v). split; [done|]. by eapply entries_lookup.
Qed.

Lemma forEach_inv fuel m r snap : forall index s tr,
  run_inv s tr -> walked m r s ->
  run_inv (forEach fuel m r snap index s).1.2 (tr ++ (forEach fuel m r snap index s).2).
Proof.
  induction fuel as [|fuel IH]; intros index s tr Hinv Hw.
  - cbn. by rewrite app_nil_r.
  - cbn [forEach].
    destruct (func (deref m s) !! index) as [[[cbId cb]|]|] eqn:Hslot.
    + assert (Hc : callback_at r cbId s <> None).
      { destruct Hinv as (Hwf & _). destruct Hw as [Hlt Hown].
        destruct (lookup_lt_is_Some_2 _ _ Hlt) as [e He].
        rewrite (deref_lookup m s e He) in Hslot.
        destruct (wf_detached s Hwf m e He) as [r' Hr'].
        { intros Hnil. apply entries_lookup in Hslot. rewrite Hnil in Hslot.
          by apply elem_of_nil in Hslot. }
        rewrite (Hown r' Hr') in Hr'. unfold callback_at.
        rewrite Hr', (deref_lookup m s e He).
        apply slot_has, get_has in Hslot as [? ->]. done. }
      pose proof (invoke_inv r cbId cb snap s tr Hinv Hc) as H1.
      assert (Hw1 : walked m r (invoke r cbId cb snap s).1).
      { unfold invoke. pose proof (exec_all_walked (body_of cb snap) m r s Hw).
        by destruct (exec_all _ s). }
      destruct (invoke r cbId cb snap s) as [s1 es1]. cbn [fst snd] in *.
      specialize (IH (S index) s1 (tr ++ es1) H1 Hw1).
      destruct (forEach fuel m r snap (S index) s1) as [[fin s2] es2].
      cbn [fst snd] in *. by rewrite <- app_assoc in IH.
    + by apply IH.
    + cbn. by rewrite app_nil_r.
Qed.

Lemma deliver_inv fuel h snap s tr :
  run_inv s tr ->
  run_inv (deliver fuel h snap s).1.2 (tr ++ (deliver fuel h snap s).2).
Proof.
  intros Hinv.
  assert (Hsame : run_inv s (tr ++ [])) by by rewrite app_nil_r.
  destruct (watches s !! h) as [w|] eqn:Hw; [|by unfold deliver; rewrite Hw].
  destruct (is_open w) eqn:Ho; [|by unfold deliver; rewrite Hw, Ho].
  pose proof Hinv as (Hwf & _).
  destruct (deliver_open fuel h snap s w Hwf Hw Ho) as (l & Hr & ->).
  apply forEach_inv; [done|].
  destruct (wf_owned s Hwf _ _ Hr) as (e & h' & He & _). split.
  - by eapply lookup_lt_Some.
  - intros r' Hr'. by eapply wf_registry_inj.
Qed.

Lemma step_inv a s tr : run_inv s tr -> run_inv (step a s).1 (tr ++ (step a s).2).
Proof.
  intros Hinv. destruct a as [o|fuel h snap]; cbn [step].
  - pose proof (exec_inv o s tr Hinv). by destruct (exec o s).
  - pose proof (deliver_inv fuel h snap s tr Hinv).
    by destruct (deliver fuel h snap s) as [[fin s'] es].
Qed.

Lemma run_inv_run acts s tr : run_inv s tr -> run_inv (run acts s).1 (tr ++ (run acts s).2).
Proof.
  revert s tr. induction acts as [|a acts IH]; intros s tr Hinv.
  - cbn. by rewrite app_nil_r.
  - cbn [run]. pose proof (step_inv a s tr Hinv) as H1.
    destruct (step a s) as [s1 es1]. cbn [fst snd] in H1.
    specialize (IH s1 (tr ++ es1) H1).
    destruct (run acts s1) as [s2 es2]. cbn [fst snd] in *.
    by rewrite <- app_assoc in IH.
Qed.

(** C8. In every run, snapshot dispatches with observers that register
    and unregister while they are called included, once an unregister
    call for an id under a resource has been made no observer is called
    under that id for that resource any more, neither later in the same
    dispatch nor on a later snapshot, until a register call binds the id
    again.  The property holds of every prefix of a dispatch, so it holds
    of dispatches that never end as well. *)
Theorem removed_never_called (acts : list Action) : no_stale_call (trace_of acts).
Proof.
  destruct (run_inv_run acts init [] run_inv_nil) as (_ & Hok & _).
  exact Hok.
Qed.

(** * Further properties of the handler *)

(** Whatever every method call keeps, a run keeps: deliveries are made of
    method calls. *)
Lemma run_preserves (P : State -> Prop) :
  (forall o s, wf s -> P s -> P (exec o s).1) ->
  forall acts s, wf s -> P s -> P (run acts s).1.
Proof.
  intros Hexec.
  assert (Hall : forall ops s, wf s -> P s -> P (exec_all ops s).1).
  { induction ops as [|o ops IH]; intros s Hwf HP; [done|].
    cbn [exec_all]. pose proof (exec_wf o s Hwf) as Hwf1.
    pose proof (Hexec o s Hwf HP) as HP1.
    destruct (exec o s) as [s1 ev]. specialize (IH s1 Hwf1 HP1).
    by destruct (exec_all ops s1). }
  assert (Hinv : forall r cbId cb snap s, wf s -> P s -> P (invoke r cbId cb snap s).1).
  { intros r cbId cb snap s Hwf HP. unfold invoke.
    pose proof (Hall (body_of cb snap) s Hwf HP). by destruct (exec_all _ s). }
  assert (Hfor : forall fuel m r snap index s, wf s -> P s ->
            P (forEach fuel m r snap index s).1.2).
  { induction fuel as [|fuel IH]; intros m r snap index s Hwf HP; [done|].
    cbn [forEach]. destruct (func (deref m s) !! index) as [[[cbId cb]|]|]; [| |done].
    - pose proof (invoke_wf r cbId cb snap s Hwf) as Hwf1.
      pose proof (Hinv r cbId cb snap s Hwf HP) as HP1.
      destruct (invoke r cbId cb snap s) as [s1 es1].
      specialize (IH m r snap (S index) s1 Hwf1 HP1).
      by destruct (forEach fuel m r snap (S index) s1) as [[fin s2] es2].
    - by apply IH. }
  assert (Hstep : forall a s, wf s -> P s -> P (step a s).1).
  { intros [o|fuel h snap] s Hwf HP; cbn [step].
    - pose proof (Hexec o s Hwf HP). by destruct (exec o s).
    - assert (P (deliver fuel h snap s).1.2) as HP1.
      { unfold deliver, run_handler.
        destruct (watches s !! h) as [w|]; [|done].
        destruct (is_open w); [|done].
        destruct (handler w) as [key|colCallback]; [|by apply Hfor].
        destruct (callbacks s !! key); [|done]. by apply Hfor. }
      by destruct (deliver fuel h snap s) as [[fin s'] es]. }
  induction acts as [|a acts IH]; intros s Hwf HP; [done|].
  cbn [run]. pose proof (step_wf a s Hwf) as Hwf1.
  pose proof (Hstep a s Hwf HP) as HP1.
  destruct (step a s) as [s1 es1]. specialize (IH s1 Hwf1 HP1).
  by destruct (run acts s1).
Qed.


Lemma callback_at_keys r cbId s :
  callback_at r cbId s = None <-> cbId ∉ (registered r s).*1.
Proof.
  unfold callback_at, registered. destruct (registry r s) as [l|].
  - rewrite get_None_has. apply has_false_keys.
  - split; [intros _; apply not_elem_of_nil|done].
Qed.

Lemma register_appends_at r cb callbackId overwrite s :
  wf s -> callback_at r (used_id callbackId s) s = None ->
  registered r (register r cb callbackId overwrite s).2 =
  registered r s ++ [(used_id callbackId s, cb)].
Proof.
  intros Hwf Hc.
  destruct (register_cases r cb callbackId overwrite s) as [_ ->].
  destruct (id_or_fresh_fields callbackId s) as (_ & _ & Hh & _).
  pose proof (id_or_fresh_registry callbackId r s) as Hreg.
  assert (Hid : (id_or_fresh callbackId s).1 = used_id callbackId s) by by destruct callbackId.
  rewrite Hid. set (cbId := used_id callbackId s) in *.
  set (s0 := (id_or_fresh callbackId s).2) in *.
  unfold callback_at in Hc. unfold registered at 2.
  destruct (registry r s) as [l|] eqn:Hr.
  - destruct (wf_owned s Hwf _ _ Hr) as (e & h & He & _).
    rewrite (deref_lookup l s e He) in Hc |- *. apply get_None_has in Hc.
    unfold func_has. rewrite (deref_lookup l s e He), Hc, orb_true_r.
    unfold func_set. erewrite registered_entry;
      [|by rewrite registry_set_heap, Hreg
       |cbn [heap set_heap]; by rewrite list_lookup_alter_eq, Hh, He].
    cbn [func with_func]. by apply entries_set_absent.
  - by rewrite registered_first_registration.
Qed.

(** X1. Registration order is dispatch order: a register call whose id
    is not yet bound under the key puts its callback behind all the
    registrations the key already has and leaves those as they are; on a
    key without entry it is the only one.  The id is the caller's or, when
    none is given, the next one of the generator.  On both paths. *)
Theorem register_appends (acts : list Action) (collectionRef : CollectionReference)
    (documentId : string) (cb : Callback) (callbackId : option string)
    (overwrite : bool) :
  let s := state_after acts in
  (let r := Document (document_key collectionRef documentId) in
   callback_at r (used_id callbackId s) s = None ->
   registered r (addCallback collectionRef documentId cb callbackId overwrite s).2 =
   registered r s ++ [(used_id callbackId s, cb)]) /\
  (let r := Collection (path collectionRef) in
   callback_at r (used_id callbackId s) s = None ->
   registered r (addCollectionCallback collectionRef cb callbackId overwrite s).2 =
   registered r s ++ [(used_id callbackId s, cb)]).
Proof.
  reachable acts s Hwf. split; intros r Hc.
  - rewrite addCallback_register. by apply register_appends_at.
  - rewrite addCollectionCallback_register. by apply register_appends_at.
Qed.

(** X2. An unregister call removes the registration under its id and
    keeps all the others of the key, in their order.  In every state, on
    both paths. *)
Theorem unregister_keeps_order (s : State) (collectionRef : CollectionReference)
    (documentId cbId : string) :
  registered (Document (document_key collectionRef documentId))
    (removeCallback collectionRef documentId cbId s) =
  filter (fun p => p.1 <> cbId)
    (registered (Document (document_key collectionRef documentId)) s) /\
  registered (Collection (path collectionRef))
    (removeCollectionCallback collectionRef cbId s) =
  filter (fun p => p.1 <> cbId) (registered (Collection (path collectionRef)) s).
Proof.
  rewrite removeCallback_unregister, removeCollectionCallback_unregister.
  split; apply registered_unregister.
Qed.

(** X3. A method call about one key leaves every other key alone, a key
    of the same registry included: its entry object with handle and slots,
    its registrations and its watch count are as before. *)
Theorem other_keys_untouched (acts : list Action) (o : Op) (r : Resource) :
  let s := state_after acts in
  op_resource o <> r ->
  entry_of r (exec o s).1 = entry_of r s /\
  registered r (exec o s).1 = registered r s /\
  open_handles r (exec o s).1 = open_handles r s.
Proof.
  reachable acts s Hwf. intros Hne.
  pose proof (exec_wf o s Hwf) as Hwf'.
  destruct (exec_frame o r s Hwf Hne) as [Hr He]. split_and!.
  - done.
  - unfold registered, deref. rewrite Hr.
    unfold entry_of in He. rewrite Hr in He.
    destruct (registry r s) as [l|]; [|done].
    by rewrite !list_lookup_total_alt, He.
  - by apply open_handles_registry.
Qed.

Lemma size_delete_present (m : gmap string nat) key l :
  m !! key = Some l -> size m = S (size (delete key m)).
Proof.
  intros H. rewrite <- (insert_delete_id m key l H) at 1.
  by rewrite map_size_insert_None by apply lookup_delete_eq.
Qed.

Lemma entries_total_bind r l s :
  registry r s = None ->
  entries_total (set_registry r (fun key => <[key := l]>) s) = S (entries_total s).
Proof.
  unfold entries_total. destruct r as [key|key]; cbn; intros H;
    rewrite map_size_insert_None by done; lia.
Qed.

Lemma entries_total_unbind r l s :
  registry r s = Some l ->
  entries_total s = S (entries_total (set_registry r (fun key => delete key) s)).
Proof.
  unfold entries_total. destruct r as [key|key]; cbn; intros H;
    rewrite (size_delete_present _ key l H); lia.
Qed.

Lemma open_after_close (ws : list Watch) h w :
  ws !! h = Some w -> is_open w = true ->
  length (filter (fun w => is_open w = true) ws) =
  S (length (filter (fun w => is_open w = true) (alter close h ws))).
Proof.
  revert h. induction ws as [|a ws IH]; intros [|h] Hh Ho; try done.
  - injection Hh as ->. cbn [alter list_alter].
    rewrite filter_cons_True by done. by rewrite filter_cons_False by (by cbn).
  - cbn in Hh. change (alter close (S h) (a :: ws)) with (a :: alter close h ws).
    rewrite !filter_cons. case_decide; cbn [length]; by rewrite (IH h Hh Ho).
Qed.

Lemma exec_counts o s :
  wf s -> open_total s = entries_total s ->
  open_total (exec o s).1 = entries_total (exec o s).1.
Proof.
  intros Hwf Heq.
  destruct (exec_register_unregister o s) as [(cb & i & ov & ->)|(cbId & ->)]; cbn [fst].
  - destruct (register_cases (op_resource o) cb i ov s) as [_ ->].
    assert (H0 : open_total (id_or_fresh i s).2 = entries_total (id_or_fresh i s).2)
      by by destruct i.
    pose proof (id_or_fresh_registry i (op_resource o) s) as Hreg.
    destruct (registry (op_resource o) s) as [l|] eqn:Hr.
    + by destruct (_ || _).
    + unfold first_registration. rewrite entries_total_bind by by rewrite registry_set_heap.
      unfold open_total. rewrite watches_set_registry. cbn [watches set_heap set_watches].
      rewrite filter_app, length_app, filter_cons_True by done. cbn [length filter].
      unfold entries_total, open_total in *. cbn [callbacks collectionCallbacks] in *.
      rewrite H0. simpl. lia.
  - rewrite unregister_cases.
    destruct (registry (op_resource o) s) as [l|] eqn:Hr; [|done].
    destruct (wf_owned s Hwf _ _ Hr) as (e & h & He & _ & Hu & Hw). rewrite He, Hu.
    destruct (_ =? 0); [|done].
    rewrite (entries_total_unbind _ l s Hr) in Heq.
    unfold open_total in *. rewrite watches_set_registry.
    cbn [call_unsubscribe watches set_watches func_delete set_heap].
    rewrite (open_after_close _ h _ Hw eq_refl) in Heq.
    unfold entries_total in *. destruct (op_resource o); cbn in *; lia.
Qed.

(** X4. No watch is leaked and none is missing: in every state the class
    can reach, the watches open at the store are as many as the entries of
    the two registries together. *)
Theorem open_watches_match_entries (acts : list Action) :
  open_total (state_after acts) = entries_total (state_after acts).
Proof.
  apply (run_preserves (fun s => open_total s = entries_total s));
    [apply exec_counts|apply init_wf|done].
Qed.





Lemma unregister_watches_length r cbId s :
  length (watches (unregister r cbId s)) = length (watches s).
Proof.
  unfold unregister. destruct (registry r s) as [l|]; [|done].
  destruct (_ =? 0); [|done]. rewrite watches_set_registry.
  destruct (unsubscribe _); cbn [call_unsubscribe func_delete watches set_watches set_heap];
    [|done].
  apply length_alter.
Qed.

Lemma registered_empty_iff r s : wf s -> registered r s = [] <-> registry r s = None.
Proof.
  intros Hwf. unfold registered. destruct (registry r s) as [l|] eqn:Hr; [|done].
  destruct (wf_owned s Hwf _ _ Hr) as (e & h & He & Hne & _).
  rewrite (deref_lookup l s e He). split; [done|discriminate].
Qed.

Lemma open_handles_registered r s s' :
  wf s -> wf s' -> registered r s' = registered r s ->
  open_handles r s' = open_handles r s.
Proof.
  intros Hwf Hwf' Hreg.
  pose proof (registered_empty_iff r s Hwf) as H1.
  pose proof (registered_empty_iff r s' Hwf') as H2. rewrite Hreg in H2.
  destruct (registry r s) as [l|] eqn:Hr, (registry r s') as [l'|] eqn:Hr'.
  - by rewrite (open_handles_bound r s l), (open_handles_bound r s' l').
  - destruct H2 as [_ H2]. specialize (H2 eq_refl). apply H1 in H2. done.
  - destruct H1 as [_ H1]. specialize (H1 eq_refl). apply H2 in H1. done.
  - by rewrite (open_handles_free r s), (open_handles_free r s').
Qed.

Lemma register_unregister_round_trip r cb cbId overwrite s :
  wf s -> callback_at r cbId s = None ->
  let s2 := unregister r cbId (register r cb (Some cbId) overwrite s).2 in
  registered r s2 = registered r s /\
  open_handles r s2 = open_handles r s /\
  length (watches s2) =
    length (watches s) + match registry r s with Some _ => 0 | None => 1 end.
Proof.
  intros Hwf Hc s2.
  pose proof (register_wf r cb (Some cbId) overwrite s Hwf) as Hwf1.
  pose proof (unregister_wf r cbId _ Hwf1) as Hwf2. fold s2 in Hwf2.
  assert (Hreg : registered r s2 = registered r s).
  { subst s2. rewrite registered_unregister.
    rewrite (register_appends_at r cb (Some cbId) overwrite s Hwf Hc).
    rewrite filter_app, filter_cons_False, filter_nil, app_nil_r by (cbn; by intros []).
    apply callback_at_keys in Hc.
    induction (registered r s) as [|[k v] regs IH]; [done|].
    rewrite fmap_cons, not_elem_of_cons in Hc. destruct Hc as [Hk Hc].
    rewrite filter_cons_True by (cbn; by intros <-). f_equal. by apply IH. }
  split_and!; [done|by apply open_handles_registered|].
  subst s2. rewrite unregister_watches_length.
  destruct (register_cases r cb (Some cbId) overwrite s) as [_ ->].
  cbn [id_or_fresh fst snd].
  destruct (registry r s) as [l|].
  - destruct (_ || _); cbn [func_set watches set_heap]; lia.
  - unfold first_registration. rewrite watches_set_registry.
    cbn [watches set_heap set_watches]. rewrite length_app. cbn. lia.
Qed.

(** X6. Registering under an id that is not bound and unregistering it
    again gives the key back as it was: the same registrations in the same
    order and the same watch count.  On a key that had no entry the pair
    of calls opens one watch and closes it again; on a key with an entry it
    opens none.  On both paths. *)
Theorem register_then_unregister (acts : list Action)
    (collectionRef : CollectionReference) (documentId cbId : string)
    (cb : Callback) (overwrite : bool) :
  let s := state_after acts in
  (let r := Document (document_key collectionRef documentId) in
   let s2 := removeCallback collectionRef documentId cbId
               (addCallback collectionRef documentId cb (Some cbId) overwrite s).2 in
   callback_at r cbId s = None ->
   registered r s2 = registered r s /\
   open_handles r s2 = open_handles r s /\
   length (watches s2) = length (watches s) + match registry r s with Some _ => 0 | None => 1 end) /\
  (let r := Collection (path collectionRef) in
   let s2 := removeCollectionCallback collectionRef cbId
               (addCollectionCallback collectionRef cb (Some cbId) overwrite s).2 in
   callback_at r cbId s = None ->
   registered r s2 = registered r s /\
   open_handles r s2 = open_handles r s /\
   length (watches s2) = length (watches s) + match registry r s with Some _ => 0 | None => 1 end).
Proof.
  reachable acts s Hwf. split; intros r s2 Hc; subst s2.
  - rewrite addCallback_register, removeCallback_unregister.
    by apply register_unregister_round_trip.
  - rewrite addCollectionCallback_register, removeCollectionCallback_unregister.
    by apply register_unregister_round_trip.
Qed.












End Handler.

(** * The claims on the members of team [t1] *)

Lemma at_most_one_watch_witness :
  callbacks (state_after nid one_observer) !! document_key members "u1" <> None /\
  watches (addCallback nid members "u1" cbB None false (state_after nid one_observer)).2 =
  watches (state_after nid one_observer).
Proof.
  pose proof (at_most_one_watch nid one_observer) as H. cbv zeta in H.
  destruct H as (_ & H & _).
  assert (Hk : callbacks (state_after nid one_observer) !! document_key members "u1" <> None)
    by (vm_compute; discriminate).
  split; [exact Hk|]. exact (H members "u1" cbB None false Hk).
Defined.

Lemma entries_live_and_watched_witness :
  let s := state_after nid one_observer in
  let s' := (exec nid (OpRemoveCallback members "u1" "a") s).1 in
  (exec nid (OpRemoveCallback members "u1" "a") s = (s', Unregistered members_u1 "a") /\
   registry members_u1 s = Some 0 /\
   heap s !! 0 = Some (mkEntry (Some 0) [Some ("a", cbA)]) /\
   unsubscribe (mkEntry (Some 0) [Some ("a", cbA)]) = Some 0 /\
   JSMap.keys (func (mkEntry (Some 0) [Some ("a", cbA)])) = ["a"]) /\
  (registry members_u1 s' = None /\ open_handles members_u1 s' = 0 /\
   handle_open 0 s' = false).
Proof.
  intros s s'.
  pose proof (entries_live_and_watched nid one_observer) as H. cbv zeta in H.
  destruct H as (_ & _ & H).
  assert (H1 : exec nid (OpRemoveCallback members "u1" "a") s = (s', Unregistered members_u1 "a"))
    by (vm_compute; reflexivity).
  assert (H2 : registry members_u1 s = Some 0) by (vm_compute; reflexivity).
  assert (H3 : heap s !! 0 = Some (mkEntry (Some 0) [Some ("a", cbA)]))
    by (vm_compute; reflexivity).
  assert (H4 : unsubscribe (mkEntry (Some 0) [Some ("a", cbA)]) = Some 0) by reflexivity.
  assert (H5 : JSMap.keys (func (mkEntry (Some 0) [Some ("a", cbA)])) = ["a"]) by reflexivity.
  split; [by split_and!|].
  exact (H (OpRemoveCallback members "u1" "a") s' members_u1 "a" 0 _ 0 H1 H2 H3 H4 H5).
Defined.

(** C3 as the claim puts it fails when an observer unregisters another one
    that is still to come: [cbK] runs first and unregisters ["b"], so the
    snapshot reaches one of the two callbacks that were registered when it
    arrived. *)
Lemma fan_out_counterexample :
  ~ fans_out_to_all nid 0 7 (state_after nid remover_first).
Proof.
  intros (w & fuel & s' & es & Hw & Hd & Hc).
  vm_compute in Hw. injection Hw as <-.
  destruct fuel as [|[|[|fuel]]]; vm_compute in Hd; try discriminate.
  injection Hd as <- <-. vm_compute in Hc. discriminate.
Qed.

Lemma fan_out_quiet_witness :
  let s := state_after nid two_observers in
  let w := mkWatch members_u1 (DocHandler "teams/t1/members/u1") true in
  (watches s !! 0 = Some w /\ is_open w = true /\
   Forall (fun p => quiet (target w) 7 p.2) (registered (target w) s)) /\
  exists fuel0, forall fuel, fuel0 <= fuel ->
    exists s' es,
      deliver nid fuel 0 7 s = (true, s', es) /\
      calls es = [Called members_u1 "a" cbA 7; Called members_u1 "b" cbB 7].
Proof.
  intros s w.
  assert (H1 : watches s !! 0 = Some w) by (vm_compute; reflexivity).
  assert (H2 : is_open w = true) by reflexivity.
  assert (Hreg : registered (target w) s = [("a", cbA); ("b", cbB)])
    by (vm_compute; reflexivity).
  assert (H3 : Forall (fun p => quiet (target w) 7 p.2) (registered (target w) s)).
  { rewrite Hreg. repeat constructor. }
  split; [by split_and!|].
  destruct (fan_out_quiet nid two_observers 0 7 w H1 H2 H3) as (_ & _ & fuel0 & H).
  exists fuel0. intros fuel Hf. destruct (H fuel Hf) as (s' & es & Hd & Hc).
  exists s', es. split; [exact Hd|]. fold s in Hc. rewrite Hreg in Hc. exact Hc.
Defined.

Lemma collision_policy_witness :
  let s := state_after nid one_observer in
  callback_at members_u1 "a" s = Some cbA /\
  (addCallback nid members "u1" cbB (Some "a") true s).1 = "a" /\
  callback_at members_u1 "a" (addCallback nid members "u1" cbB (Some "a") true s).2 = Some cbB /\
  addCallback nid members "u1" cbB (Some "a") false s = ("a", s).
Proof.
  intros s.
  assert (H : callback_at (Document (document_key members "u1")) "a" s = Some cbA)
    by (vm_compute; reflexivity).
  split; [exact H|].
  exact (proj1 (collision_policy nid s members "u1" "a" cbA cbB) H).
Defined.

Lemma no_op_removal_witness :
  let s := state_after nid one_observer in
  callback_at members_u1 "nonexistent-id" s = None /\
  removeCallback members "u1" "nonexistent-id" s = s.
Proof.
  intros s.
  assert (H : callback_at (Document (document_key members "u1")) "nonexistent-id" s = None)
    by (vm_compute; reflexivity).
  split; [exact H|].
  exact (proj1 (no_op_removal nid one_observer members "u1" "nonexistent-id") H).
Defined.

(** C7 as the claim puts it fails on a colliding id without [overwrite]:
    ["a"] is bound to [cbA]; registering [cbB] under ["a"] returns ["a"]
    and stores nothing, so what an unregister call with the returned id
    removes is the registration of [cbA]. *)
Lemma returned_id_counterexample :
  ~ unregister_removes_own nid members "u1" cbB (Some "a") false
      (state_after nid one_observer).
Proof.
  unfold unregister_removes_own. vm_compute. intros (_ & H & _). discriminate.
Qed.

Lemma returned_id_unregisters_witness :
  let s := state_after nid one_observer in
  let res := addCallback nid members "u1" cbB (Some "b") false s in
  (false = true \/ callback_at members_u1 res.1 s = None) /\
  callback_at members_u1 res.1 res.2 = Some cbB /\
  unregister_removes_own nid members "u1" cbB (Some "b") false s.
Proof.
  intros s res.
  assert (H : false = true \/
              callback_at (Document (document_key members "u1")) res.1 s = None)
    by (right; vm_compute; reflexivity).
  split; [exact H|].
  pose proof (returned_id_unregisters nid one_observer members "u1" cbB (Some "b") false) as T.
  cbv zeta in T. destruct T as [(_ & _ & T & _) _]. exact (T H).
Defined.

Lemma overwrite_keeps_position_witness :
  let s := state_after nid two_observers in
  let s1 := (addCallback nid members "u1" cbC (Some "a") true s).2 in
  callback_at members_u1 "a" s = Some cbA /\
  (registered members_u1 s1).*1 = (registered members_u1 s).*1 /\
  callback_at members_u1 "a" s1 = Some cbC.
Proof.
  intros s s1.
  assert (H : callback_at (Document (document_key members "u1")) "a" s = Some cbA)
    by (vm_compute; reflexivity).
  split; [exact H|].
  pose proof (overwrite_keeps_position nid two_observers members "u1" "a" cbA cbC) as T.
  cbv zeta in T. destruct T as [T _].
  destruct (T H) as (pre & post & E1 & E2 & _).
  fold s in E1. fold s s1 in E2. change (Document (document_key members "u1")) with members_u1 in *.
  split.
  - rewrite E1, E2, !fmap_app. reflexivity.
  - vm_compute. reflexivity.
Defined.

(** The scenario of C8 run on the model: [cbK] unregisters ["b"] while
    the first snapshot is dispatched; ["b"] sees neither that snapshot
    nor the next one. *)
Example remover_trace :
  trace_of nid (remover_first ++ [Deliver 10 0 7; Deliver 10 0 8]) =
  [Registered members_u1 "k"; Registered members_u1 "b";
   Called members_u1 "k" cbK 7; Unregistered members_u1 "b";
   Called members_u1 "k" cbK 8; Unregistered members_u1 "b"].
Proof. vm_compute. reflexivity. Qed.

(** The scenario of the specification: [cbA] and [cbB] see the first
    snapshot in that order; once ["a"] is unregistered only [cbB] sees the
    second one and the watch is still open; once ["b"] is unregistered too
    the watch is closed and the entry is gone. *)
Example team_scenario :
  let acts := two_observers ++
              [Deliver 10 0 1; Do (OpRemoveCallback members "u1" "a"); Deliver 10 0 2] in
  let s := state_after nid acts in
  let s' := removeCallback members "u1" "b" s in
  trace_of nid acts =
    [Registered members_u1 "a"; Registered members_u1 "b";
     Called members_u1 "a" cbA 1; Called members_u1 "b" cbB 1;
     Unregistered members_u1 "a"; Called members_u1 "b" cbB 2] /\
  handle_open 0 s = true /\
  handle_open 0 s' = false /\ registry members_u1 s' = None.
Proof. vm_compute. by split_and!. Qed.


(** * Properties of the duration helpers *)

Section DurationFacts.
Import Duration.
Local Open Scope Z_scope.

Lemma length_append (s1 s2 : string) :
  String.length (s1 +:+ s2) = (String.length s1 + String.length s2)%nat.
Proof.
  induction s1 as [|c s1 IH]; [done|].
  change (S (String.length (s1 +:+ s2)) = S (String.length s1 + String.length s2)%nat).
  by rewrite IH.
Qed.

Lemma pad2_length_nat (k : nat) : (k < 100)%nat -> String.length (pad2 (Z.of_nat k)) = 2%nat.
Proof.
  intros Hk.
  do 100 (destruct k as [|k]; [vm_compute; reflexivity|]). lia.
Qed.

Lemma pad2_length (n : Z) : 0 <= n < 100 -> String.length (pad2 n) = 2%nat.
Proof.
  intros Hn. rewrite <- (Z2Nat.id n) by lia. apply pad2_length_nat. lia.
Qed.

(** X8. For a duration that is not negative the four parts are in their
    ranges (minutes and seconds below 60, milliseconds below 1000, none
    negative) and add up to the duration again. *)
Theorem decompose_recomposes (ms : Z) :
  0 <= ms ->
  let p := decomposeMilliseconds ms in
  recompose p = ms /\ 0 <= hours p /\ 0 <= minutes p < 60 /\
  0 <= seconds p < 60 /\ 0 <= milliseconds p < 1000.
Proof.
  intros H. unfold recompose, decomposeMilliseconds. cbn.
  Z.to_euclidean_division_equations. lia.
Qed.

(** X9. For a negative duration the parts do not add up: [Math.floor]
    rounds the quotients down while [%] keeps the sign, so the sum of the
    parts is below the duration unless the duration is a whole number of
    hours. *)
Theorem decompose_negative (ms : Z) :
  ms < 0 ->
  let p := decomposeMilliseconds ms in
  recompose p <= ms /\ (recompose p = ms <-> Z.rem ms 3600000 = 0).
Proof.
  intros H. unfold recompose, decomposeMilliseconds. cbn.
  Z.to_euclidean_division_equations. lia.
Qed.

Lemma seconds_first (ms : Z) :
  0 <= ms ->
  ms / 1000 / 3600 = ms / 3600000 /\
  Z.rem (ms / 1000) 3600 / 60 = Z.rem ms 3600000 / 60000 /\
  Z.rem (ms / 1000) 60 = Z.rem ms 60000 / 1000.
Proof. intros H. Z.to_euclidean_division_equations. lia. Qed.

(** X10. [formatTime] and [decomposeMilliseconds] agree on durations that
    are not negative: the clock display of [formatTime] shows the hours,
    minutes and seconds that [decomposeMilliseconds] computes, the leading
    field as it is and every later field in exactly two characters. *)
Theorem formatTime_clock (ms : Z) (separator : option string) :
  0 <= ms ->
  let p := decomposeMilliseconds ms in
  let sep := default ":"%string separator in
  formatTime ms separator None =
    (if 0 <? hours p
     then clock3 sep (show (hours p)) (pad2 (minutes p)) (pad2 (seconds p))
     else if 0 <? minutes p
          then clock2 sep (show (minutes p)) (pad2 (seconds p))
          else show (seconds p)) /\
  String.length (pad2 (minutes p)) = 2%nat /\
  String.length (pad2 (seconds p)) = 2%nat.
Proof.
  intros H p sep.
  destruct (seconds_first ms H) as (Hh & Hm & Hs).
  destruct (decompose_recomposes ms H) as (_ & _ & Hmr & Hsr & _). fold p in Hmr, Hsr.
  split_and!.
  - unfold formatTime. fold sep. rewrite Hh, Hm, Hs. done.
  - apply pad2_length. lia.
  - apply pad2_length. lia.
Qed.

(** X11. For a negative duration [formatTime] shows the seconds field
    alone, in both modes: the tests [hours > 0] and [minutes > 0] fail, so
    the hours and minutes are dropped and what is shown lies between -59
    and 0. *)
Theorem formatTime_negative (ms : Z) (separator : option string) (ul : UnitLabels) :
  ms < 0 ->
  let seconds := Z.rem (ms / 1000) 60 in
  formatTime ms separator None = show seconds /\
  formatTime ms separator (Some ul) = formatUnit seconds (secondsLabel ul) /\
  -60 < seconds <= 0.
Proof.
  intros H seconds.
  assert (Hh : (0 <? ms / 1000 / 3600) = false)
    by (apply Z.ltb_ge; Z.to_euclidean_division_equations; lia).
  assert (Hm : (0 <? Z.rem (ms / 1000) 3600 / 60) = false)
    by (apply Z.ltb_ge; Z.to_euclidean_division_equations; lia).
  split; [|split].
  - unfold formatTime. by rewrite Hh, Hm.
  - unfold formatTime. by rewrite Hh, Hm.
  - subst seconds. Z.to_euclidean_division_equations. lia.
Qed.

(** X12. With no options [formatDuration] is a clock of fixed width:
    minutes and seconds in two digits each below one hour, which is seven
    characters, and the hours in front from one hour on, twelve characters
    up to a hundred hours.  The hours appear exactly from 3600000 ms on. *)
Theorem formatDuration_default (toFixed_fraction : Z -> Z -> string) (ms : Z) :
  0 <= ms ->
  let p := decomposeMilliseconds ms in
  let out := formatDuration toFixed_fraction ms None in
  out = (if ms <? 3600000
         then clock2 " : " (pad2 (minutes p)) (pad2 (seconds p))
         else clock3 " : " (pad2 (hours p)) (pad2 (minutes p)) (pad2 (seconds p))) /\
  (ms < 3600000 -> String.length out = 7%nat) /\
  (3600000 <= ms < 360000000 -> String.length out = 12%nat).
Proof.
  intros H p out.
  destruct (decompose_recomposes ms H) as (_ & Hhr & Hmr & Hsr & _).
  fold p in Hhr, Hmr, Hsr.
  assert (Hm2 := pad2_length (minutes p) ltac:(lia)).
  assert (Hs2 := pad2_length (seconds p) ltac:(lia)).
  assert (Hout : out = (if ms <? 3600000
         then clock2 " : " (pad2 (minutes p)) (pad2 (seconds p))
         else clock3 " : " (pad2 (hours p)) (pad2 (minutes p)) (pad2 (seconds p)))).
  { subst out. unfold formatDuration. cbn [default no_options showHours padHours
      showMinutes padMinutes showSeconds padSeconds fractionalDigits separator
      unitLabels hideZeroHours Z.ltb Z.compare negb orb andb]. fold p.
    rewrite orb_false_r.
    destruct (Z.ltb_spec ms 3600000) as [Hlt|Hge].
    - assert ((0 <? hours p) = false) as ->; [|done].
      apply Z.ltb_ge. subst p. cbn. Z.to_euclidean_division_equations. lia.
    - assert ((0 <? hours p) = true) as ->; [|done].
      apply Z.ltb_lt. subst p. cbn. Z.to_euclidean_division_equations. lia. }
  split_and!; [done| |].
  - intros Hlt. rewrite Hout. apply Z.ltb_lt in Hlt. rewrite Hlt.
    unfold clock2. rewrite !length_append, Hm2, Hs2. done.
  - intros [Hge Hlt]. rewrite Hout. apply Z.ltb_ge in Hge. rewrite Hge.
    assert (Hh2 : String.length (pad2 (hours p)) = 2%nat).
    { apply pad2_length. subst p. cbn. Z.to_euclidean_division_equations. lia. }
    unfold clock3. rewrite !length_append, Hh2, Hm2, Hs2. done.
Qed.

(** X13. With unit labels and no other option, [formatDuration] shows
    all three parts, the hours also when they are zero; the hours and the
    minutes are written without padding and only the seconds are padded to
    two digits.  Whatever the other options are, with unit labels the
    result does not depend on [padHours], [padMinutes] and [separator]. *)
Theorem formatDuration_labels (toFixed_fraction : Z -> Z -> string) (ms : Z)
    (ul : UnitLabels) :
  let p := decomposeMilliseconds ms in
  formatDuration toFixed_fraction ms (Some (with_labels ul)) =
    (show (hours p) +:+ default ""%string (hoursLabel ul)) +:+ " " +:+
    (show (minutes p) +:+ default ""%string (minutesLabel ul)) +:+ " " +:+
    (pad2 (seconds p) +:+ default ""%string (secondsLabel ul)) /\
  forall sh ph sm pm ss ps fd sep hz,
    formatDuration toFixed_fraction ms
      (Some (mkOptions sh ph sm pm ss ps fd sep (Some ul) hz)) =
    formatDuration toFixed_fraction ms
      (Some (mkOptions sh None sm None ss ps fd None (Some ul) hz)).
Proof.
  intros p. split; [|reflexivity].
  unfold formatDuration. cbn [default with_labels showHours padHours
    showMinutes padMinutes showSeconds padSeconds fractionalDigits separator
    unitLabels hideZeroHours Z.ltb Z.compare negb andb]. fold p.
  by rewrite orb_true_r.
Qed.

(** X14. Below sixty minutes [formatAbbreviatedDuration] shows whole
    minutes, rounded down, with the minute label, and the number shown is
    below 60; from sixty minutes on it shows the hour label.  The label
    defaults are ["min"] and ["h"]. *)
Theorem formatAbbreviatedDuration_threshold (toFixed1_hours : Z -> string)
    (MINUTES_IN_MILLISECOND ms : Z) (options : option AbbreviatedOptions) :
  0 < MINUTES_IN_MILLISECOND ->
  let M := MINUTES_IN_MILLISECOND in
  let out := formatAbbreviatedDuration toFixed1_hours M ms options in
  (ms < 60 * M ->
   out = show (ms / M) +:+ default "min"%string (options ≫= minuteLabel) /\ ms / M < 60) /\
  (60 * M <= ms ->
   out = toFixed1_hours (ms / M) +:+ default "h"%string (options ≫= hourLabel)).
Proof.
  intros HM M out. subst out. unfold formatAbbreviatedDuration. fold M. split.
  - intros Hlt. assert (ms / M < 60) as Hq by (apply Z.div_lt_upper_bound; lia).
    split; [|done]. by rewrite (proj2 (Z.leb_gt 60 (ms / M)) Hq).
  - intros Hge. assert (60 <= ms / M) as Hq by (apply Z.div_le_lower_bound; lia).
    by rewrite (proj2 (Z.leb_le 60 (ms / M)) Hq).
Qed.
End DurationFacts.

(** * Properties of the security rules *)

Section RulesFacts.
Import Rules.

(** X15. The only write the rules admit is the creation of a document
    directly in [users] or [voiceMessages] by a signed-in user, and only
    when the new document names that user in [createdById], carries the
    server's time of the request in [createdAt] and is active.  Updates
    and deletions are denied for everyone, and so is every write
    elsewhere. *)
Theorem writes_are_own_creations (m : Method) (path : list string) (request : Request) :
  allow m path request = true /\ is_write m = true <->
  m = Create /\
  (exists collection id,
     path = [collection; id] /\ (collection = "users" \/ collection = "voiceMessages")) /\
  exists uid,
    auth request = Some uid /\
    data request !! "createdById" = Some (VString uid) /\
    data request !! "isActive" = Some (VBool true) /\
    data request !! "createdAt" = Some (VTimestamp (time request)).
Proof.
  split.
  - intros [Hallow Hw].
    destruct path as [|collection [|id [|? ?]]]; cbn [allow] in Hallow; try done.
    assert (Hrule : document_rule m request = true /\
                    (collection = "users" \/ collection = "voiceMessages")).
    { apply orb_true_iff in Hallow as [H|H]; apply andb_true_iff in H as [Hc H];
        apply bool_decide_eq_true in Hc; auto. }
    destruct Hrule as [Hrule Hcol].
    destruct m; cbn [document_rule is_write] in Hrule, Hw; try done.
    apply andb_true_iff in Hrule as [_ Hdoc].
    unfold isCreatingNewDocWithServerTimestamp in Hdoc.
    apply andb_true_iff in Hdoc as [_ Hdoc].
    destruct (data request !! "createdAt") as [createdAt|]; [|done].
    destruct (data request !! "createdById") as [createdById|]; [|done].
    destruct (data request !! "isActive") as [isActive|]; [|done].
    destruct (auth request) as [uid|]; [|done].
    apply andb_true_iff in Hdoc as [Hdoc Hactive].
    apply andb_true_iff in Hdoc as [Htime Hby].
    destruct createdAt as [| |t|]; cbn [isServerTimestamp] in Htime; try done.
    destruct createdById as [|s| |]; try done.
    destruct isActive as [b| | |]; try done.
    apply bool_decide_eq_true in Htime, Hby. subst.
    split_and!; [done|by exists collection, id|]. by exists uid.
  - intros (-> & (collection & id & -> & Hcol) & uid & Hauth & Hby & Hactive & Htime).
    split; [|done]. cbn [allow document_rule].
    assert (Hdoc : isSignedIn request && isCreatingNewDocWithServerTimestamp request = true).
    { unfold isSignedIn, isCreatingNewDocWithServerTimestamp, hasAll.
      cbn [forallb]. rewrite Hauth, Hby, Hactive, Htime. cbn [isServerTimestamp].
      rewrite !bool_decide_eq_true_2; [done..| | |]; by eexists. }
    rewrite Hdoc, !andb_true_r.
    destruct Hcol as [->| ->]; [done|]. apply orb_true_r.
Qed.
End RulesFacts.

(** * The further properties on concrete inputs *)

Lemma register_appends_witness :
  let s := state_after nid one_observer in
  callback_at members_u1 (used_id nid None s) s = None /\
  registered members_u1 (addCallback nid members "u1" cbB None false s).2 =
  [("a", cbA); ("id-0", cbB)].
Proof.
  intros s.
  assert (H : callback_at (Document (document_key members "u1")) (used_id nid None s) s = None)
    by (vm_compute; reflexivity).
  split; [exact H|].
  exact (proj1 (register_appends nid one_observer members "u1" cbB None false) H).
Defined.

Lemma other_keys_untouched_witness :
  let s := state_after nid two_observers in
  let o := OpAddCallback members "u2" cbC (Some "c") false in
  op_resource o <> members_u1 /\
  registered members_u1 (exec nid o s).1 = registered members_u1 s /\
  open_handles members_u1 (exec nid o s).1 = open_handles members_u1 s.
Proof.
  intros s o.
  assert (H : op_resource o <> members_u1) by (vm_compute; discriminate).
  split; [exact H|].
  exact (proj2 (other_keys_untouched nid two_observers o members_u1 H)).
Defined.

Lemma register_then_unregister_witness :
  let s := state_after nid one_observer in
  let s2 := removeCallback members "u1" "b"
              (addCallback nid members "u1" cbB (Some "b") true s).2 in
  callback_at members_u1 "b" s = None /\
  registered members_u1 s2 = registered members_u1 s /\
  open_handles members_u1 s2 = open_handles members_u1 s.
Proof.
  intros s s2.
  assert (H : callback_at (Document (document_key members "u1")) "b" s = None)
    by (vm_compute; reflexivity).
  split; [exact H|].
  destruct (proj1 (register_then_unregister nid one_observer members "u1" "b" cbB true) H)
    as (H1 & H2 & _).
  split; [exact H1|exact H2].
Defined.


Lemma decompose_recomposes_witness :
  (0 <= 3909123)%Z /\
  Duration.decomposeMilliseconds 3909123 = Duration.mkParts 1 5 9 123 /\
  Duration.recompose (Duration.decomposeMilliseconds 3909123) = 3909123%Z.
Proof.
  assert (H : (0 <= 3909123)%Z) by lia.
  split; [exact H|]. split; [reflexivity|].
  exact (proj1 (decompose_recomposes 3909123 H)).
Defined.

Lemma decompose_negative_witness :
  (-1 < 0)%Z /\
  Duration.decomposeMilliseconds (-1) = Duration.mkParts (-1) (-1) (-1) (-1) /\
  (Duration.recompose (Duration.decomposeMilliseconds (-1)) <= -1)%Z.
Proof.
  assert (H : (-1 < 0)%Z) by lia.
  split; [exact H|]. split; [reflexivity|].
  exact (proj1 (decompose_negative (-1) H)).
Defined.

Lemma formatTime_clock_witness :
  (0 <= 3905000)%Z /\ Duration.formatTime 3905000 None None = "1:05:05".
Proof.
  assert (H : (0 <= 3905000)%Z) by lia.
  split; [exact H|].
  exact (proj1 (formatTime_clock 3905000 None H)).
Defined.

Lemma formatTime_negative_witness :
  (-3605000 < 0)%Z /\ Duration.formatTime (-3605000) None None = "-5".
Proof.
  assert (H : (-3605000 < 0)%Z) by lia.
  split; [exact H|].
  exact (proj1 (formatTime_negative (-3605000) None (Duration.mkUnitLabels None None None) H)).
Defined.

Lemma formatDuration_default_witness :
  (0 <= 309000)%Z /\
  Duration.formatDuration (fun _ _ => "") 309000 None = "05 : 09".
Proof.
  assert (H : (0 <= 309000)%Z) by lia.
  split; [exact H|].
  exact (proj1 (formatDuration_default (fun _ _ => "") 309000 H)).
Defined.

Lemma formatAbbreviatedDuration_threshold_witness :
  (0 < 60000)%Z /\ (3599999 < 60 * 60000)%Z /\
  Duration.formatAbbreviatedDuration (fun _ => "") 60000 3599999 None = "59min".
Proof.
  assert (H : (0 < 60000)%Z) by lia.
  assert (H' : (3599999 < 60 * 60000)%Z) by lia.
  split; [exact H|]. split; [exact H'|].
  exact (proj1 (proj1 (formatAbbreviatedDuration_threshold
                         (fun _ => "") 60000 3599999 None H) H')).
Defined.

Lemma writes_are_own_creations_witness :
  let request :=
    Rules.mkRequest (Some "u1") 5
      {[ "createdAt" := Rules.VTimestamp 5; "createdById" := Rules.VString "u1";
         "isActive" := Rules.VBool true ]} in
  (Rules.auth request = Some "u1" /\
   Rules.data request !! "createdById" = Some (Rules.VString "u1") /\
   Rules.data request !! "isActive" = Some (Rules.VBool true) /\
   Rules.data request !! "createdAt" = Some (Rules.VTimestamp (Rules.time request))) /\
  Rules.allow Rules.Create ["users"; "u1"] request = true.
Proof.
  intros request.
  assert (H1 : Rules.auth request = Some "u1") by reflexivity.
  assert (H2 : Rules.data request !! "createdById" = Some (Rules.VString "u1"))
    by (vm_compute; reflexivity).
  assert (H3 : Rules.data request !! "isActive" = Some (Rules.VBool true))
    by (vm_compute; reflexivity).
  assert (H4 : Rules.data request !! "createdAt" = Some (Rules.VTimestamp (Rules.time request)))
    by (vm_compute; reflexivity).
  split; [by split_and!|].
  refine (proj1 (proj2 (writes_are_own_creations Rules.Create ["users"; "u1"] request) _)).
  split; [reflexivity|]. split.
  - exists "users", "u1". split; [reflexivity|by left].
  - exists "u1". by split_and!.
Defined.


